(** * visa-bot-poc: the SSE relay and its buffered consumer

    A shallow embedding of the protocol code of the repository:
    - [web/src/App.tsx]: [extractTextFromPayload] and the read loop of
      [startStream], with [stopStream]; the form, with [validate],
      [goNext], [goBack] and [submitIntake];
    - [server/src/server.ts]: [extractJsonFromResponse], the [/api/chat]
      handler and the [/api/chat/stream] handler with its listeners, behind
      the body parser [express.json] and before the error middleware;
    - [server/src/schemas/visa.ts]: [VisaIntakeSchema].

    JavaScript values are an inductive type, strings are sequences of
    UTF-16 code units, and an exception is an explicit [Throw] result. *)

From Stdlib Require Import List Bool NArith ZArith Lia String Ascii.
From Stdlib.Strings Require Byte.
Import ListNotations.

Local Open Scope N_scope.
Local Open Scope list_scope.

(** ** Strings

    A JavaScript string is a sequence of 16-bit code units. *)

Definition jsstring := list N.

(** An ASCII literal of the source as a JavaScript string. *)
Definition lit (s : string) : jsstring :=
  map N_of_ascii (list_ascii_of_string s).

Fixpoint str_eqb (a b : jsstring) : bool :=
  match a, b with
  | [], [] => true
  | x :: a', y :: b' => (x =? y) && str_eqb a' b'
  | _, _ => false
  end.

(** [s.startsWith(p)] *)
Fixpoint startsWith (s p : jsstring) : bool :=
  match p, s with
  | [], _ => true
  | x :: p', y :: s' => (x =? y) && startsWith s' p'
  | _ :: _, [] => false
  end.

(** WhiteSpace and LineTerminator of ECMAScript: what [trim] removes and
    what [\s] matches. *)
Definition is_js_space (c : N) : bool :=
  ((9 <=? c) && (c <=? 13)) || (c =? 32) || (c =? 160) || (c =? 5760)
  || ((8192 <=? c) && (c <=? 8202)) || (c =? 8232) || (c =? 8233)
  || (c =? 8239) || (c =? 8287) || (c =? 12288) || (c =? 65279).

Fixpoint trimStart (s : jsstring) : jsstring :=
  match s with
  | c :: s' => if is_js_space c then trimStart s' else s
  | [] => []
  end.

Definition trimEnd (s : jsstring) : jsstring := rev (trimStart (rev s)).

(** [s.trim()] *)
Definition trim (s : jsstring) : jsstring := trimEnd (trimStart s).

(** ** Numbers

    The numbers a JSON text denotes are decimal fractions
    [(-1)^neg * mant * 10^exp]. No path of the modelled code computes with
    a number; only its truthiness and its decimal rendering are observed,
    so the rounding to binary64 is left out of the model. *)

Record number := mkNumber { num_neg : bool; num_mant : N; num_exp : Z }.

Definition number_is_zero (x : number) : bool := num_mant x =? 0.

Fixpoint uint_units (u : Decimal.uint) : jsstring :=
  match u with
  | Decimal.Nil => []
  | Decimal.D0 u => 48 :: uint_units u
  | Decimal.D1 u => 49 :: uint_units u
  | Decimal.D2 u => 50 :: uint_units u
  | Decimal.D3 u => 51 :: uint_units u
  | Decimal.D4 u => 52 :: uint_units u
  | Decimal.D5 u => 53 :: uint_units u
  | Decimal.D6 u => 54 :: uint_units u
  | Decimal.D7 u => 55 :: uint_units u
  | Decimal.D8 u => 56 :: uint_units u
  | Decimal.D9 u => 57 :: uint_units u
  end.

Definition N_digits (n : N) : jsstring := uint_units (N.to_uint n).

Fixpoint dropZeros (ds : jsstring) : jsstring :=
  match ds with
  | 48 :: ds' => dropZeros ds'
  | _ => ds
  end.

(** Number::toString of ECMAScript, radix 10, on the shortest digit string
    [s] of length [k] with [x = s * 10^(n-k)]. *)
Definition number_to_string (x : number) : jsstring :=
  if number_is_zero x then lit "0"
  else
    let all := N_digits (num_mant x) in
    let s := rev (dropZeros (rev all)) in
    let k := Z.of_nat (List.length s) in
    let n := (num_exp x + Z.of_nat (List.length all))%Z in
    let sign := if num_neg x then lit "-" else [] in
    let expo (e : Z) :=
      lit "e" ++ (if (e <? 0)%Z then lit "-" else lit "+")
      ++ N_digits (Z.abs_N e) in
    sign ++
    if ((k <=? n) && (n <=? 21))%Z then
      s ++ repeat 48 (Z.to_nat (n - k))
    else if ((0 <? n) && (n <=? 21))%Z then
      firstn (Z.to_nat n) s ++ lit "." ++ skipn (Z.to_nat n) s
    else if ((-6 <? n) && (n <=? 0))%Z then
      lit "0." ++ repeat 48 (Z.to_nat (- n)) ++ s
    else
      match s with
      | [d] => [d] ++ expo (n - 1)%Z
      | d :: rest => [d] ++ lit "." ++ rest ++ expo (n - 1)%Z
      | [] => []
      end.

(** ** Values *)

#[warnings="-register-all"]
Inductive value : Type :=
| VUndef
| VNull
| VBool (b : bool)
| VNum (x : number)
| VStr (s : jsstring)
| VArr (items : list value)
| VObj (fields : list (jsstring * value)).

Inductive jstype := TUndefined | TObject | TBoolean | TNumber | TString.

(** [typeof v] *)
Definition typeof (v : value) : jstype :=
  match v with
  | VUndef => TUndefined
  | VNull | VArr _ | VObj _ => TObject
  | VBool _ => TBoolean
  | VNum _ => TNumber
  | VStr _ => TString
  end.

Definition jstype_eqb (a b : jstype) : bool :=
  match a, b with
  | TUndefined, TUndefined | TObject, TObject | TBoolean, TBoolean
  | TNumber, TNumber | TString, TString => true
  | _, _ => false
  end.

(** ToBoolean: the test of [if (v)], [!v], [a && b] and [filter(Boolean)]. *)
Definition truthy (v : value) : bool :=
  match v with
  | VUndef | VNull => false
  | VBool b => b
  | VNum x => negb (number_is_zero x)
  | VStr s => match s with [] => false | _ => true end
  | VArr _ | VObj _ => true
  end.

Definition nullish (v : value) : bool :=
  match v with VUndef | VNull => true | _ => false end.

(** [a ?? b] *)
Definition coalesce (a b : value) : value := if nullish a then b else a.

(** [v === "s"] for a string literal. *)
Definition strict_eq_str (v : value) (s : jsstring) : bool :=
  match v with VStr t => str_eqb t s | _ => false end.

Fixpoint assoc (k : jsstring) (fs : list (jsstring * value)) : option value :=
  match fs with
  | [] => None
  | (k', v) :: fs' => if str_eqb k k' then Some v else assoc k fs'
  end.

Definition digit_val (c : N) : option N :=
  if (48 <=? c) && (c <=? 57) then Some (c - 48) else None.

Fixpoint digits_val (acc : N) (s : jsstring) : option N :=
  match s with
  | [] => Some acc
  | c :: s' =>
      match digit_val c with
      | Some d => digits_val (10 * acc + d) s'
      | None => None
      end
  end.

(** A property key that is a canonical array index ("0", "1", ..., no
    leading zero, below 2^32 - 1). *)
Definition array_index (k : jsstring) : option N :=
  match k with
  | [] => None
  | [48] => Some 0
  | 48 :: _ => None
  | _ =>
      match digits_val 0 k with
      | Some i => if i <? 4294967295 then Some i else None
      | None => None
      end
  end.

(** The own property [k] of a non-nullish value. The inherited properties
    of the built-in prototypes ([length], [constructor], ...) are left out:
    the modelled code reads none of them. *)
Definition own_prop (v : value) (k : jsstring) : value :=
  match v with
  | VObj fs => match assoc k fs with Some x => x | None => VUndef end
  | VArr items =>
      match array_index k with
      | Some i => nth (N.to_nat i) items VUndef
      | None => VUndef
      end
  | VStr s =>
      match array_index k with
      | Some i =>
          match nth_error s (N.to_nat i) with
          | Some c => VStr [c]
          | None => VUndef
          end
      | None => VUndef
      end
  | _ => VUndef
  end.

(** ** Exceptions *)

Record exn := mkExn { exn_name : jsstring; exn_message : jsstring }.

Definition TypeError (msg : string) : exn := mkExn (lit "TypeError") (lit msg).
Definition SyntaxError (msg : string) : exn := mkExn (lit "SyntaxError") (lit msg).

Inductive result (A : Type) : Type :=
| Ok (a : A)
| Throw (e : exn).
Arguments Ok {A} a.
Arguments Throw {A} e.

Definition bind {A B} (m : result A) (f : A -> result B) : result B :=
  match m with
  | Ok a => f a
  | Throw e => Throw e
  end.

(** [try { m } catch { h }] *)
Definition try_catch {A} (m : result A) (h : exn -> result A) : result A :=
  match m with
  | Ok a => Ok a
  | Throw e => h e
  end.

Declare Scope js_scope.
Delimit Scope js_scope with js.
Notation "x <- m ;; k" := (bind m (fun x => k))
  (at level 61, m at next level, right associativity) : js_scope.
Local Open Scope js_scope.

(** [v.k] and [v[k]]: a TypeError on [null] and [undefined]. *)
Definition get (v : value) (k : string) : result value :=
  if nullish v then Throw (TypeError "Cannot read properties of null or undefined")
  else Ok (own_prop v (lit k)).

(** [v?.k] and [v?.[k]] *)
Definition get_opt (v : value) (k : string) : value :=
  if nullish v then VUndef else own_prop v (lit k).

(** ToString, as [Array.prototype.join] and [JSON.parse] apply it to their
    argument. *)
Fixpoint to_string (v : value) : jsstring :=
  match v with
  | VUndef => lit "undefined"
  | VNull => lit "null"
  | VBool true => lit "true"
  | VBool false => lit "false"
  | VNum x => number_to_string x
  | VStr s => s
  | VArr items =>
      (fix join_comma (l : list value) : jsstring :=
         match l with
         | [] => []
         | [x] => if nullish x then [] else to_string x
         | x :: l' =>
             (if nullish x then [] else to_string x) ++ lit "," ++ join_comma l'
         end) items
  | VObj _ => lit "[object Object]"
  end.

(** [items.join("")] *)
Definition join_empty (items : list value) : jsstring :=
  List.concat (map (fun x => if nullish x then [] else to_string x) items).

(** ** The text-extraction heuristic ([App.tsx], [extractTextFromPayload]) *)

(** [typeof v === "string"], and the string that [v] then is. *)
Definition is_string (v : value) : bool := jstype_eqb (typeof v) TString.

Definition string_of (v : value) : jsstring :=
  match v with VStr s => s | _ => [] end.

(** The callback of [content.map]: [c.text] when it is a string, else
    [null]. *)
Definition text_or_null (c : value) : value :=
  if is_string (get_opt c "text") then get_opt c "text" else VNull.

Definition extractTextFromPayload (payload : value) : result jsstring :=
  if negb (truthy payload) || negb (jstype_eqb (typeof payload) TObject)
  then Ok [] else
  delta <- get payload "delta" ;;
  if is_string delta then Ok (string_of delta) else
  text <- get payload "text" ;;
  if is_string text then Ok (string_of text) else
  data <- get payload "data" ;;
  data_text <- (if truthy data then get data "text" else Ok VUndef) ;;
  if truthy data && is_string data_text then Ok (string_of data_text) else
  found <- try_catch
             (let content :=
                get_opt (get_opt (get_opt (get_opt payload "response") "output")
                           "0") "content" in
              match content with
              | VArr items =>
                  let parts := join_empty (filter truthy (map text_or_null items)) in
                  if truthy (VStr parts) then Ok (Some parts) else Ok None
              | _ => Ok None
              end)
             (fun _ => Ok None) ;;
  match found with
  | Some parts => Ok parts
  | None => Ok []
  end.

(** ** JSON ([JSON.parse], [JSON.stringify])

    The two platform functions, for values without cycles. The models of
    the repository's code below take them as parameters; these definitions
    are the instance the concrete runs use. *)

Module JSON.

Definition is_ws (c : N) : bool :=
  (c =? 9) || (c =? 10) || (c =? 13) || (c =? 32).

Fixpoint skip_ws (s : jsstring) : jsstring :=
  match s with
  | c :: s' => if is_ws c then skip_ws s' else s
  | [] => []
  end.

Definition hex_val (c : N) : option N :=
  if (48 <=? c) && (c <=? 57) then Some (c - 48)
  else if (97 <=? c) && (c <=? 102) then Some (c - 87)
  else if (65 <=? c) && (c <=? 70) then Some (c - 55)
  else None.

Definition hex4 (a b c d : N) : option N :=
  match hex_val a, hex_val b, hex_val c, hex_val d with
  | Some x, Some y, Some z, Some w => Some (((x * 16 + y) * 16 + z) * 16 + w)
  | _, _, _, _ => None
  end.

Definition escape_char (e : N) : option N :=
  if e =? 34 then Some 34          (* quote *)
  else if e =? 92 then Some 92     (* backslash *)
  else if e =? 47 then Some 47     (* slash *)
  else if e =? 98 then Some 8      (* b: backspace *)
  else if e =? 102 then Some 12    (* f: form feed *)
  else if e =? 110 then Some 10    (* n: line feed *)
  else if e =? 114 then Some 13    (* r: carriage return *)
  else if e =? 116 then Some 9     (* t: tab *)
  else None.

Definition cons_fst {A} (c : N) (r : option (jsstring * A)) : option (jsstring * A) :=
  match r with
  | Some (s, x) => Some (c :: s, x)
  | None => None
  end.

(** The characters of a string literal after its opening quote, and the
    text after its closing quote. *)
Fixpoint parse_chars (s : jsstring) : option (jsstring * jsstring) :=
  match s with
  | [] => None
  | c :: r =>
      if c =? 34 then Some ([], r)
      else if c =? 92 then
        match r with
        | [] => None
        | e :: r1 =>
            if e =? 117 then
              match r1 with
              | h1 :: h2 :: h3 :: h4 :: r2 =>
                  match hex4 h1 h2 h3 h4 with
                  | Some u => cons_fst u (parse_chars r2)
                  | None => None
                  end
              | _ => None
              end
            else
              match escape_char e with
              | Some u => cons_fst u (parse_chars r1)
              | None => None
              end
        end
      else if c <? 32 then None
      else cons_fst c (parse_chars r)
  end.

Fixpoint take_digits (s : jsstring) : jsstring * jsstring :=
  match s with
  | c :: s' =>
      match digit_val c with
      | Some _ => let (ds, r) := take_digits s' in (c :: ds, r)
      | None => ([], s)
      end
  | [] => ([], [])
  end.

Definition digits_N (ds : jsstring) : N :=
  match digits_val 0 ds with Some n => n | None => 0 end.

(** A JSON number: an optional minus sign; an integer part, a single 0 or
    digits that do not start with 0; an optional fraction, a dot and at
    least one digit; an optional exponent, e or E, an optional sign and at
    least one digit. *)
Definition parse_number (s : jsstring) : option (number * jsstring) :=
  let (neg, s1) :=
    match s with
    | c :: r => if c =? 45 then (true, r) else (false, s)
    | [] => (false, s)
    end in
  let (ip, s2) := take_digits s1 in
  match ip with
  | [] => None
  | d :: more =>
      if (d =? 48) && negb (match more with [] => true | _ => false end) then None
      else
        let frac :=
          match s2 with
          | c :: r =>
              if c =? 46 then
                let (fp, r') := take_digits r in
                match fp with [] => None | _ => Some (fp, r') end
              else Some ([], s2)
          | [] => Some ([], s2)
          end in
        match frac with
        | None => None
        | Some (fp, s3) =>
            let expo :=
              match s3 with
              | c :: r =>
                  if (c =? 101) || (c =? 69) then
                    let (eneg, r1) :=
                      match r with
                      | g :: r' =>
                          if g =? 45 then (true, r')
                          else if g =? 43 then (false, r')
                          else (false, r)
                      | [] => (false, r)
                      end in
                    let (ep, r2) := take_digits r1 in
                    match ep with
                    | [] => None
                    | _ =>
                        let e := Z.of_N (digits_N ep) in
                        Some ((if eneg then - e else e)%Z, r2)
                    end
                  else Some (0%Z, s3)
              | [] => Some (0%Z, s3)
              end in
            match expo with
            | None => None
            | Some (e, s4) =>
                let sig := rev (dropZeros (rev (ip ++ fp))) in
                let zeros := (List.length (ip ++ fp) - List.length sig)%nat in
                let mant := digits_N sig in
                let e' :=
                  if mant =? 0 then 0%Z
                  else (e - Z.of_nat (List.length fp) + Z.of_nat zeros)%Z in
                Some (mkNumber neg mant e', s4)
            end
        end
  end.

Fixpoint obj_update (k : jsstring) (v : value) (fs : list (jsstring * value)) :=
  match fs with
  | [] => []
  | (k', x) :: fs' =>
      if str_eqb k k' then (k', v) :: fs' else (k', x) :: obj_update k v fs'
  end.

Fixpoint obj_insert_index (i : N) (k : jsstring) (v : value)
    (fs : list (jsstring * value)) :=
  match fs with
  | [] => [(k, v)]
  | (k', x) :: fs' =>
      match array_index k' with
      | Some j => if j <? i then (k', x) :: obj_insert_index i k v fs'
                  else (k, v) :: fs
      | None => (k, v) :: fs
      end
  end.

(** Defining the property [k]: a repeated key keeps its place and takes
    the new value; a new key goes after the others, array indices first
    and in ascending order. *)
Definition obj_set (fs : list (jsstring * value)) (k : jsstring) (v : value) :=
  match assoc k fs with
  | Some _ => obj_update k v fs
  | None =>
      match array_index k with
      | Some i => obj_insert_index i k v fs
      | None => fs ++ [(k, v)]
      end
  end.

(** Recursive descent, one unit of fuel for each call; [parse] below gives
    twice the length of the text, more than the calls it can nest. *)
Fixpoint parse_value (fuel : nat) (s : jsstring) {struct fuel}
    : option (value * jsstring) :=
  match fuel with
  | O => None
  | S f =>
      match skip_ws s with
      | [] => None
      | c :: r =>
          if c =? 123 then
            match skip_ws r with
            | [] => None
            | c' :: r' => if c' =? 125 then Some (VObj [], r')
                          else parse_members f [] r
            end
          else if c =? 91 then
            match skip_ws r with
            | [] => None
            | c' :: r' => if c' =? 93 then Some (VArr [], r')
                          else parse_elements f [] r
            end
          else if c =? 34 then
            match parse_chars r with
            | Some (str, r') => Some (VStr str, r')
            | None => None
            end
          else if startsWith (c :: r) (lit "true") then Some (VBool true, skipn 4 (c :: r))
          else if startsWith (c :: r) (lit "false") then Some (VBool false, skipn 5 (c :: r))
          else if startsWith (c :: r) (lit "null") then Some (VNull, skipn 4 (c :: r))
          else
            match parse_number (c :: r) with
            | Some (x, r') => Some (VNum x, r')
            | None => None
            end
      end
  end
with parse_elements (fuel : nat) (acc : list value) (s : jsstring) {struct fuel}
    : option (value * jsstring) :=
  match fuel with
  | O => None
  | S f =>
      match parse_value f s with
      | None => None
      | Some (v, r) =>
          match skip_ws r with
          | [] => None
          | c :: r' =>
              if c =? 44 then parse_elements f (v :: acc) r'
              else if c =? 93 then Some (VArr (rev (v :: acc)), r')
              else None
          end
      end
  end
with parse_members (fuel : nat) (acc : list (jsstring * value)) (s : jsstring)
    {struct fuel} : option (value * jsstring) :=
  match fuel with
  | O => None
  | S f =>
      match skip_ws s with
      | [] => None
      | q :: r =>
          if negb (q =? 34) then None
          else
            match parse_chars r with
            | None => None
            | Some (k, r1) =>
                match skip_ws r1 with
                | [] => None
                | colon :: r2 =>
                    if negb (colon =? 58) then None
                    else
                      match parse_value f r2 with
                      | None => None
                      | Some (v, r3) =>
                          match skip_ws r3 with
                          | [] => None
                          | c :: r4 =>
                              if c =? 44 then parse_members f (obj_set acc k v) r4
                              else if c =? 125 then Some (VObj (obj_set acc k v), r4)
                              else None
                          end
                      end
                end
            end
      end
  end.

(** [JSON.parse(text)]: a SyntaxError unless the whole text is one value. *)
Definition parse (text : jsstring) : result value :=
  match parse_value (2 * List.length text + 2)%nat text with
  | Some (v, r) =>
      match skip_ws r with
      | [] => Ok v
      | _ => Throw (SyntaxError "Unexpected non-whitespace character after JSON")
      end
  | None => Throw (SyntaxError "Unexpected token in JSON")
  end.

Definition hex_digit (n : N) : N := if n <? 10 then 48 + n else 87 + n.

Definition unicode_escape (c : N) : jsstring :=
  lit "\u" ++ [hex_digit (c / 4096); hex_digit ((c / 256) mod 16);
               hex_digit ((c / 16) mod 16); hex_digit (c mod 16)].

Definition is_high_surrogate (c : N) : bool := (55296 <=? c) && (c <=? 56319).
Definition is_low_surrogate (c : N) : bool := (56320 <=? c) && (c <=? 57343).

(** QuoteJSONString without its quotes; [paired] says that the previous
    unit was a high surrogate this one may complete. *)
Fixpoint quote_chars (paired : bool) (s : jsstring) : jsstring :=
  match s with
  | [] => []
  | c :: r =>
      if c =? 8 then lit "\b" ++ quote_chars false r
      else if c =? 9 then lit "\t" ++ quote_chars false r
      else if c =? 10 then lit "\n" ++ quote_chars false r
      else if c =? 12 then lit "\f" ++ quote_chars false r
      else if c =? 13 then lit "\r" ++ quote_chars false r
      else if c =? 34 then [92; 34] ++ quote_chars false r
      else if c =? 92 then [92; 92] ++ quote_chars false r
      else if c <? 32 then unicode_escape c ++ quote_chars false r
      else if is_high_surrogate c then
        match r with
        | d :: _ => if is_low_surrogate d then c :: quote_chars true r
                    else unicode_escape c ++ quote_chars false r
        | [] => unicode_escape c
        end
      else if is_low_surrogate c then
        (if paired then [c] else unicode_escape c) ++ quote_chars false r
      else c :: quote_chars false r
  end.

Definition quote (s : jsstring) : jsstring := [34] ++ quote_chars false s ++ [34].

Fixpoint join_comma (parts : list jsstring) : jsstring :=
  match parts with
  | [] => []
  | [p] => p
  | p :: ps => p ++ [44] ++ join_comma ps
  end.

(** SerializeJSONProperty without indentation; [None] is [undefined]. *)
Fixpoint serialize (v : value) : option jsstring :=
  match v with
  | VUndef => None
  | VNull => Some (lit "null")
  | VBool true => Some (lit "true")
  | VBool false => Some (lit "false")
  | VNum x => Some (number_to_string x)
  | VStr s => Some (quote s)
  | VArr items =>
      Some ([91] ++
            join_comma
              ((fix elems (l : list value) : list jsstring :=
                  match l with
                  | [] => []
                  | x :: l' =>
                      match serialize x with
                      | Some t => t
                      | None => lit "null"
                      end :: elems l'
                  end) items)
            ++ [93])
  | VObj fs =>
      Some ([123] ++
            join_comma
              ((fix members (l : list (jsstring * value)) : list jsstring :=
                  match l with
                  | [] => []
                  | (k, x) :: l' =>
                      match serialize x with
                      | Some t => (quote k ++ [58] ++ t) :: members l'
                      | None => members l'
                      end
                  end) fs)
            ++ [125])
  end.

(** [JSON.stringify(v)] *)
Definition stringify (v : value) : result (option jsstring) := Ok (serialize v).

End JSON.

(** JSON text of the examples, written with ' in place of the double
    quote. *)
Definition jtext (s : string) : jsstring :=
  map (fun c => if c =? 39 then 34 else c) (lit s).

(** ** The streaming decoder ([new TextDecoder()], [decode(value, {stream: true})])

    The UTF-8 decoder of the Encoding Standard, one byte at a time, in
    replacement mode; [U+FFFD] stands for an ill-formed sequence. *)

Record utf8_decoder := mkUtf8 {
  code_point : N;
  bytes_seen : N;
  bytes_needed : N;
  lower_boundary : N;
  upper_boundary : N
}.

Definition utf8_init : utf8_decoder := mkUtf8 0 0 0 0x80 0xBF.

(** A byte met while no sequence is open. *)
Definition utf8_lead (b : N) : utf8_decoder * list N :=
  if b <=? 0x7F then (utf8_init, [b])
  else if (0xC2 <=? b) && (b <=? 0xDF) then
    (mkUtf8 (N.land b 0x1F) 0 1 0x80 0xBF, [])
  else if (0xE0 <=? b) && (b <=? 0xEF) then
    (mkUtf8 (N.land b 0xF) 0 2
       (if b =? 0xE0 then 0xA0 else 0x80) (if b =? 0xED then 0x9F else 0xBF), [])
  else if (0xF0 <=? b) && (b <=? 0xF4) then
    (mkUtf8 (N.land b 0x7) 0 3
       (if b =? 0xF0 then 0x90 else 0x80) (if b =? 0xF4 then 0x8F else 0xBF), [])
  else (utf8_init, [0xFFFD]).

(** The handler: the new state and the scalar values produced. A byte out
    of range inside a sequence ends the sequence with an error and is read
    again as a lead byte. *)
Definition utf8_byte (d : utf8_decoder) (b : N) : utf8_decoder * list N :=
  if bytes_needed d =? 0 then utf8_lead b
  else if negb ((lower_boundary d <=? b) && (b <=? upper_boundary d)) then
    let (d', out) := utf8_lead b in (d', 0xFFFD :: out)
  else
    let cp := N.lor (N.shiftl (code_point d) 6) (N.land b 0x3F) in
    let seen := bytes_seen d + 1 in
    if negb (seen =? bytes_needed d)
    then (mkUtf8 cp seen (bytes_needed d) 0x80 0xBF, [])
    else (utf8_init, [cp]).

(** A scalar value as UTF-16. *)
Definition utf16 (cp : N) : jsstring :=
  if cp <? 0x10000 then [cp]
  else [0xD800 + N.shiftr (cp - 0x10000) 10; 0xDC00 + N.land (cp - 0x10000) 0x3FF].

Record TextDecoder := mkDecoder { utf8 : utf8_decoder; BOM_seen : bool }.

Definition new_TextDecoder : TextDecoder := mkDecoder utf8_init false.

(** The first scalar value of the stream is dropped when it is the byte
    order mark. *)
Fixpoint serialize_queue (seen : bool) (cps : list N) : bool * jsstring :=
  match cps with
  | [] => (seen, [])
  | cp :: rest =>
      let (seen', out) := serialize_queue true rest in
      (seen', if negb seen && (cp =? 0xFEFF) then out else utf16 cp ++ out)
  end.

Definition decode_byte (td : TextDecoder) (b : Byte.byte) : TextDecoder * jsstring :=
  let (u, cps) := utf8_byte (utf8 td) (Byte.to_N b) in
  let (seen, out) := serialize_queue (BOM_seen td) cps in
  (mkDecoder u seen, out).

(** [decoder.decode(value, {stream: true})]: no flush at the end of the
    chunk, the open sequence stays in the decoder. *)
Fixpoint decode (td : TextDecoder) (chunk : list Byte.byte) : TextDecoder * jsstring :=
  match chunk with
  | [] => (td, [])
  | b :: rest =>
      let (td1, o1) := decode_byte td b in
      let (td2, o2) := decode td1 rest in
      (td2, o1 ++ o2)
  end.

(** ** Framing *)

Definition cons_head (c : N) (parts : list jsstring) : list jsstring :=
  match parts with
  | p :: ps => (c :: p) :: ps
  | [] => [[c]]
  end.

(** [buffer.split("\n\n")]: the pieces between the occurrences of the
    blank line, taken from the left and without overlap. *)
Fixpoint split_nn (s : jsstring) : list jsstring :=
  match s with
  | [] => [[]]
  | c :: s' =>
      match s' with
      | d :: s'' =>
          if (c =? 10) && (d =? 10) then [] :: split_nn s''
          else cons_head c (split_nn s')
      | [] => cons_head c (split_nn s')
      end
  end.

(** [line.replace(/^data:\s?/, '')] *)
Definition strip_data (line : jsstring) : jsstring :=
  if startsWith line (lit "data:") then
    match skipn 5 line with
    | c :: r => if is_js_space c then r else c :: r
    | [] => []
    end
  else line.

(** ** The consumer state ([App.tsx], the [useState] cells of the stream) *)

Record ui_state := mkUi {
  error : option jsstring;
  events : list value;
  finalJson : value;
  transcript : jsstring;
  isStreaming : bool
}.

(** A statement that updates the cells and may throw; the updates made
    before a throw stay. *)
Definition action (A : Type) := ui_state -> ui_state * result A.

Definition done {A} (a : A) : action A := fun st => (st, Ok a).

Definition lift {A} (m : result A) : action A := fun st => (st, m).

Definition bind_action {A B} (m : action A) (f : A -> action B) : action B :=
  fun st =>
    match m st with
    | (st', Ok a) => f a st'
    | (st', Throw e) => (st', Throw e)
    end.

Notation "x <~ m ;; k" := (bind_action m (fun x => k))
  (at level 61, m at next level, right associativity) : js_scope.
Notation "m ;;; k" := (bind_action m (fun _ => k))
  (at level 61, right associativity) : js_scope.

Definition setEvents (f : list value -> list value) : action unit :=
  fun st => (mkUi (error st) (f (events st)) (finalJson st) (transcript st)
               (isStreaming st), Ok tt).

Definition setTranscript (f : jsstring -> jsstring) : action unit :=
  fun st => (mkUi (error st) (events st) (finalJson st) (f (transcript st))
               (isStreaming st), Ok tt).

Definition setFinalJson (v : value) : action unit :=
  fun st => (mkUi (error st) (events st) v (transcript st) (isStreaming st), Ok tt).

Definition setError (e : option jsstring) (st : ui_state) : ui_state :=
  mkUi e (events st) (finalJson st) (transcript st) (isStreaming st).

Definition setIsStreaming (b : bool) (st : ui_state) : ui_state :=
  mkUi (error st) (events st) (finalJson st) (transcript st) b.

(** [try { m } catch { }] around a statement. *)
Definition swallow (m : action unit) (st : ui_state) : ui_state := fst (m st).

Section Consumer.

(** [JSON.parse] *)
Variable parse : jsstring -> result value.

(** The body of the [try] of the read loop, from the parsed event on. *)
Definition on_event (evt : value) : action unit :=
  setEvents (fun prev => prev ++ [evt]) ;;;
  ev <~ lift (get evt "event") ;;
  is_message <~ (if strict_eq_str ev (lit "message")
                 then payload <~ lift (get evt "payload") ;; done (truthy payload)
                 else done false) ;;
  (if is_message then
     payload <~ lift (get evt "payload") ;;
     text <~ lift (extractTextFromPayload payload) ;;
     if truthy (VStr text) then setTranscript (fun t => t ++ text) else done tt
   else done tt) ;;;
  ev' <~ lift (get evt "event") ;;
  if strict_eq_str ev' (lit "final") then
    data <~ lift (get evt "data") ;;
    setFinalJson (coalesce data VNull)
  else done tt.

(** The body of [for (const chunk of parts)]. *)
Definition process_frame (st : ui_state) (chunk : jsstring) : ui_state :=
  let line := trim chunk in
  if negb (startsWith line (lit "data:")) then st
  else
    let jsonStr := strip_data line in
    swallow (evt <~ lift (parse jsonStr) ;; on_event evt) st.

Definition process_frames (st : ui_state) (parts : list jsstring) : ui_state :=
  fold_left process_frame parts st.

(** The locals of the read loop. *)
Record reader := mkReader { decoder : TextDecoder; buffer : jsstring }.

Definition new_reader : reader := mkReader new_TextDecoder [].

(** One turn of [while (true)] on a chunk that [reader.read()] delivered. *)
Definition read_chunk (s : ui_state * reader) (value : list Byte.byte)
    : ui_state * reader :=
  let (st, rd) := s in
  let (dec, text) := decode (decoder rd) value in
  let buffer1 := buffer rd ++ text in
  let parts := split_nn buffer1 in
  let buffer2 := last parts [] in
  (process_frames st (removelast parts), mkReader dec buffer2).

(** The read loop on the chunks of a stream, up to [done]. *)
Definition read_loop (st : ui_state) (chunks : list (list Byte.byte))
    : ui_state * reader :=
  fold_left read_chunk chunks (st, new_reader).

End Consumer.

(** ** The component: [startStream], [stopStream] and the suspended loops

    An [AbortController] is a number. An invocation of [startStream] that
    awaits its [fetch] or its next [reader.read()] is a session, keyed by
    the controller it created. *)

Inductive phase :=
| Fetching
| Reading (rd : reader).

Record component := mkComponent {
  ui : ui_state;
  controllerRef : option nat;
  aborted : list nat;
  next_controller : nat;
  sessions : list (nat * phase)
}.

Definition initial_ui : ui_state := mkUi None [] VNull [] false.

Definition initial_component : component :=
  mkComponent initial_ui None [] 0 [].

(** What the awaited promise of a session settles with. *)
Inductive outcome :=
| Response (ok : bool) (body : bool) (status : N)
| Chunk (value : list Byte.byte)
| Done
| Rejected (e : exn).

Definition AbortError : exn :=
  mkExn (lit "AbortError") (lit "The operation was aborted.").

Fixpoint find_session (id : nat) (l : list (nat * phase)) : option phase :=
  match l with
  | [] => None
  | (i, ph) :: l' => if Nat.eqb i id then Some ph else find_session id l'
  end.

Fixpoint set_session (id : nat) (ph : phase) (l : list (nat * phase)) :=
  match l with
  | [] => []
  | (i, old) :: l' =>
      if Nat.eqb i id then (i, ph) :: l' else (i, old) :: set_session id ph l'
  end.

Definition drop_session (id : nat) (l : list (nat * phase)) :=
  filter (fun s => negb (Nat.eqb (fst s) id)) l.

Definition is_aborted (id : nat) (c : component) : bool :=
  existsb (Nat.eqb id) (aborted c).

Definition is_active (id : nat) (c : component) : bool :=
  match find_session id (sessions c) with Some _ => true | None => false end.

(** [startStream], up to its first [await]. *)
Definition startStream (c : component) : component :=
  let st := mkUi None [] VNull [] (isStreaming (ui c)) in
  let controller := next_controller c in
  mkComponent (setIsStreaming true st) (Some controller) (aborted c)
    (S controller) (sessions c ++ [(controller, Fetching)]).

(** [stopStream] *)
Definition stopStream (c : component) : component :=
  mkComponent (setIsStreaming false (ui c)) None
    (match controllerRef c with
     | Some controller => controller :: aborted c
     | None => aborted c
     end)
    (next_controller c) (sessions c).

(** [catch (e)] of [startStream] *)
Definition on_catch (e : exn) (st : ui_state) : ui_state :=
  if negb (str_eqb (exn_name e) (lit "AbortError")) then
    setError (Some (match exn_message e with
                    | [] => lit "Stream error"
                    | m => m
                    end)) st
  else st.

(** [finally] of [startStream]; the invocation is over. *)
Definition on_finally (id : nat) (c : component) : component :=
  mkComponent (setIsStreaming false (ui c)) None (aborted c)
    (next_controller c) (drop_session id (sessions c)).

Definition with_ui (st : ui_state) (c : component) : component :=
  mkComponent st (controllerRef c) (aborted c) (next_controller c) (sessions c).

Definition with_phase (id : nat) (ph : phase) (c : component) : component :=
  mkComponent (ui c) (controllerRef c) (aborted c) (next_controller c)
    (set_session id ph (sessions c)).

Section Resume.

Variable parse : jsstring -> result value.

(** The session [id] resumes with the outcome [o] of what it awaits. The
    platform rejects the [fetch] and the [read] of an aborted signal with an
    [AbortError]. *)
Definition resume (c : component) (id : nat) (o : outcome) : component :=
  match find_session id (sessions c) with
  | None => c
  | Some ph =>
      let o := if is_aborted id c then Rejected AbortError else o in
      match ph, o with
      | _, Rejected e => on_finally id (with_ui (on_catch e (ui c)) c)
      | Fetching, Response ok body status =>
          if negb ok || negb body then
            let e := mkExn (lit "Error")
                       (lit "Stream failed with status " ++ N_digits status) in
            on_finally id (with_ui (on_catch e (ui c)) c)
          else with_phase id (Reading new_reader) c
      | Reading rd, Chunk value =>
          let (st, rd') := read_chunk parse (ui c, rd) value in
          with_phase id (Reading rd') (with_ui st c)
      | Reading _, Done => on_finally id c
      | _, _ => c
      end
  end.

End Resume.

(** ** The relay ([server.ts]) *)

Fixpoint from_first_brace (s : jsstring) : option jsstring :=
  match s with
  | [] => None
  | c :: s' => if c =? 123 then Some s else from_first_brace s'
  end.

(** [raw.match(/\{[\s\S]*\}$/)]: the leftmost match starts at the first
    opening brace and, the star being greedy, runs to the end of the text,
    which has to be a closing brace. *)
Definition match_braces (raw : jsstring) : option jsstring :=
  match from_first_brace raw with
  | Some m => if last m 0 =? 125 then Some m else None
  | None => None
  end.

Record http_response := mkResponse { status_code : N; json_body : value }.

Section Server.

(** [JSON.parse] and [JSON.stringify] *)
Variable parse : jsstring -> result value.
Variable stringify : value -> result (option jsstring).

(** The [try] block of [extractJsonFromResponse]: [Some v] when it returns
    [v], [None] when it runs to its end. *)
Definition extract_attempts (r : value) : result (option value) :=
  maybeText <- get r "output_text" ;;
  a <- (if truthy maybeText then
          try_catch (v <- parse (to_string maybeText) ;; Ok (Some v))
                    (fun _ => Ok None)
        else Ok None) ;;
  match a with
  | Some v => Ok (Some v)
  | None =>
      let content :=
        get_opt (get_opt (get_opt (get_opt r "output") "0") "content") "0" in
      if strict_eq_str (get_opt content "type") (lit "output_json") then
        j <- get content "json" ;; Ok (Some j)
      else
        raw <- stringify r ;;
        match raw with
        | None => Throw (TypeError "Cannot read properties of undefined")
        | Some raw =>
            match match_braces raw with
            | Some m => v <- parse m ;; Ok (Some v)
            | None => Ok None
            end
        end
  end.

Definition extractJsonFromResponse (r : value) : result value :=
  returned <- try_catch (extract_attempts r) (fun _ => Ok None) ;;
  match returned with
  | Some v => Ok v
  | None => Ok VNull
  end.

(** [openai.responses.create] for a user message *)
Variable create : jsstring -> result value.

(** The [try] block of the [/api/chat] handler. *)
Definition chat_try (body : value) : result http_response :=
  let body := if truthy body then body else VObj [] in
  userMessage <- get body "userMessage" ;;
  match userMessage with
  | VStr (c :: m) =>
      r <- create (c :: m) ;;
      data <- extractJsonFromResponse r ;;
      Ok (mkResponse 200 (VObj [(lit "data", data)]))
  | _ =>
      Ok (mkResponse 400
            (VObj [(lit "error", VStr (lit "bad_request"));
                   (lit "message", VStr (lit "userMessage (string) is required"))]))
  end.

(** The handler with the error middleware that [next(err)] reaches. *)
Definition post_api_chat (body : value) : http_response :=
  match chat_try body with
  | Ok res => res
  | Throw e =>
      mkResponse 500
        (VObj [(lit "error", VStr (lit "internal_error"));
               (lit "message", VStr (exn_message e))])
  end.

End Server.

(** ** The schema ([schemas/visa.ts], [VisaIntakeSchema]) *)

Inductive pattern := Dob.   (* ^\d{4}-\d{2}-\d{2}$ *)

Record string_schema := mkString { minLength : nat; pattern_of : option pattern }.

Record object_schema := mkObject {
  additionalProperties : bool;
  properties : list (string * string_schema);
  required : list string
}.

Definition VisaIntakeSchema : object_schema :=
  mkObject false
    [("full_name", mkString 1 None);
     ("dob", mkString 0 (Some Dob));
     ("passport_number", mkString 5 None);
     ("nationality", mkString 2 None)]%string
    ["full_name"; "dob"; "passport_number"; "nationality"]%string.

Definition is_digit (c : N) : bool := (48 <=? c) && (c <=? 57).

Definition matches (p : pattern) (s : jsstring) : bool :=
  match p, s with
  | Dob, [y1; y2; y3; y4; h1; m1; m2; h2; d1; d2] =>
      forallb is_digit [y1; y2; y3; y4; m1; m2; d1; d2] && (h1 =? 45) && (h2 =? 45)
  | Dob, _ => false
  end.

(** The length of a string in code points, as [minLength] counts it. *)
Fixpoint code_points (after_high : bool) (s : jsstring) : nat :=
  match s with
  | [] => O
  | c :: r =>
      if after_high && JSON.is_low_surrogate c then code_points false r
      else S (code_points (JSON.is_high_surrogate c) r)
  end.

Definition valid_string (sch : string_schema) (v : value) : bool :=
  match v with
  | VStr s =>
      Nat.leb (minLength sch) (code_points false s)
      && match pattern_of sch with Some p => matches p s | None => true end
  | _ => false
  end.

Fixpoint find_property (k : jsstring) (ps : list (string * string_schema)) :=
  match ps with
  | [] => None
  | (name, sch) :: ps' =>
      if str_eqb k (lit name) then Some sch else find_property k ps'
  end.

(** The validation of a value against an object schema. *)
Definition validate (sch : object_schema) (v : value) : bool :=
  match v with
  | VObj fs =>
      forallb (fun kv =>
                 match find_property (fst kv) (properties sch) with
                 | Some p => valid_string p (snd kv)
                 | None => additionalProperties sch
                 end) fs
      && forallb (fun name =>
                    match assoc (lit name) fs with
                    | Some _ => true
                    | None => false
                    end) (required sch)
  | _ => false
  end.

(** ** The heuristic as the specification words it

    An ordered list of attempts, each from the payload to an optional
    string; the first that applies gives the text. *)

Definition object_field (v : value) (k : string) : option value :=
  match v with
  | VObj fs => assoc (lit k) fs
  | _ => None
  end.

Definition string_field (v : value) (k : string) : option jsstring :=
  match object_field v k with
  | Some (VStr s) => Some s
  | _ => None
  end.

Definition at_path (v : value) (path : list string) : value :=
  fold_left get_opt path v.

Definition by_delta (payload : value) : option jsstring :=
  string_field payload "delta".

Definition by_text (payload : value) : option jsstring :=
  string_field payload "text".

Definition by_data_text (payload : value) : option jsstring :=
  match object_field payload "data" with
  | Some data => string_field data "text"
  | None => None
  end.

Definition block_text (c : value) : jsstring :=
  match string_field c "text" with
  | Some s => s
  | None => []
  end.

Definition by_content_blocks (payload : value) : option jsstring :=
  match at_path payload ["response"; "output"; "0"; "content"]%string with
  | VArr blocks =>
      match List.concat (map block_text blocks) with
      | [] => None
      | parts => Some parts
      end
  | _ => None
  end.

Fixpoint first_applicable (attempts : list (value -> option jsstring))
    (payload : value) : jsstring :=
  match attempts with
  | [] => []
  | f :: rest =>
      match f payload with
      | Some s => s
      | None => first_applicable rest payload
      end
  end.

Definition extract_text_spec : value -> jsstring :=
  first_applicable [by_delta; by_text; by_data_text; by_content_blocks].

(** ** The effect of one event, in one step *)

Definition is_event (name : string) (evt : value) : bool :=
  negb (nullish evt) && strict_eq_str (own_prop evt (lit "event")) (lit name).

Definition apply_event (evt : value) (st : ui_state) : ui_state :=
  mkUi (error st)
    (events st ++ [evt])
    (if is_event "final" evt
     then coalesce (own_prop evt (lit "data")) VNull
     else finalJson st)
    (if is_event "message" evt && truthy (own_prop evt (lit "payload"))
     then transcript st ++ extract_text_spec (own_prop evt (lit "payload"))
     else transcript st)
    (isStreaming st).

Section Frames.

Variable parse : jsstring -> result value.

(** The event a complete frame carries, if any. *)
Definition frame_event (chunk : jsstring) : option value :=
  if startsWith (trim chunk) (lit "data:") then
    match parse (strip_data (trim chunk)) with
    | Ok evt => Some evt
    | Throw _ => None
    end
  else None.

End Frames.

(** ** The extraction as the specification words it

    Three attempts in order; a parse that throws fails its attempt. *)

Section ExtractionSpec.

Variable parse : jsstring -> result value.
Variable stringify : value -> result (option jsstring).

Definition parsed (text : jsstring) : option value :=
  match parse text with
  | Ok v => Some v
  | Throw _ => None
  end.

(** (a) the aggregated text, parsed *)
Definition attempt_text (r : value) : option value :=
  if truthy (own_prop r (lit "output_text"))
  then parsed (to_string (own_prop r (lit "output_text")))
  else None.

(** (b) the embedded JSON of the first content block of the first output *)
Definition attempt_structured (r : value) : option value :=
  let content := at_path r ["output"; "0"; "content"; "0"]%string in
  if strict_eq_str (get_opt content "type") (lit "output_json")
  then Some (own_prop content (lit "json"))
  else None.

(** (c) the brace-delimited run at the end of the serialized response *)
Definition attempt_scan (r : value) : option value :=
  match stringify r with
  | Ok (Some raw) =>
      match match_braces raw with
      | Some m => parsed m
      | None => None
      end
  | _ => None
  end.

Definition extract_json_spec (r : value) : value :=
  if nullish r then VNull
  else
    match attempt_text r with
    | Some v => v
    | None =>
        match attempt_structured r with
        | Some v => v
        | None =>
            match attempt_scan r with
            | Some v => v
            | None => VNull
            end
        end
    end.

End ExtractionSpec.

(** A complete Structured Intake Result, or null. *)
Definition intake_or_null (v : value) : bool :=
  match v with
  | VNull => true
  | _ => validate VisaIntakeSchema v
  end.

(** ** Sample data *)

Definition from_json (s : string) : value :=
  match JSON.parse (jtext s) with
  | Ok v => v
  | Throw _ => VUndef
  end.

Definition bytes_of (s : string) : list Byte.byte :=
  map (fun b => if Byte.eqb b Byte.x27 then Byte.x22 else b)
    (list_byte_of_string s).

(** The frame the relay writes for a JSON text: [data: <json>] and a blank
    line. *)
Definition sse_frame (json : string) : list Byte.byte :=
  bytes_of "data: " ++ bytes_of json ++ [Byte.x0a; Byte.x0a].

Definition complete_intake : string :=
  "{'full_name':'Jane Doe','dob':'1991-04-12','passport_number':'AB1234567','nationality':'UK'}".

Definition final_frame : jsstring :=
  jtext ("data: {'event':'final','data':" ++ complete_intake ++ "}").

Definition null_final_frame : jsstring := jtext "data: {'event':'final','data':null}".

Definition stale_final_frame : jsstring :=
  jtext "data: {'event':'final','data':{'full_name':'Old Name'}}".

Definition message_frame : jsstring :=
  jtext "data: {'event':'message','payload':{'delta':'Jane'}}".

Definition malformed_frame : jsstring := jtext "data: {'event':'message',".

Definition end_line : jsstring := lit "event: end".

(** An empty [delta] next to later shapes that carry text. *)
Definition empty_delta_payload : value :=
  from_json
    "{'delta':'','text':'later','data':{'text':'nested'},'response':{'output':[{'content':[{'text':'block'}]}]}}".

(** A session that received one message and awaits its next read. *)
Definition streaming_component : component :=
  resume JSON.parse
    (resume JSON.parse (startStream initial_component) 0%nat
       (Response true true 200))
    0%nat (Chunk (sse_frame "{'event':'message','payload':{'delta':'Jane'}}")).

(** The stream of one message whose text ends in a two-byte character. *)
Definition cafe_stream : list Byte.byte :=
  bytes_of "data: {'event':'message','payload':{'delta':'caf"
  ++ [Byte.xc3; Byte.xa9] ++ bytes_of "'}}" ++ [Byte.x0a; Byte.x0a].

(** ** The read loop on a whole stream *)

Section StreamView.

Variable parse : jsstring -> result value.

(** The events that a sequence of complete frames carries, in order. *)
Definition frame_events (frames : list jsstring) : list value :=
  flat_map (fun g => match frame_event parse g with
                     | Some evt => [evt]
                     | None => []
                     end) frames.

End StreamView.

(** The text that an event adds to the transcript. *)
Definition event_text (evt : value) : jsstring :=
  if is_event "message" evt && truthy (own_prop evt (lit "payload")) then
    match extractTextFromPayload (own_prop evt (lit "payload")) with
    | Ok text => text
    | Throw _ => []
    end
  else [].

(** The text of a whole stream of chunks, as the decoder of the loop
    produces it. *)
Definition decoded (chunks : list (list Byte.byte)) : jsstring :=
  snd (decode new_TextDecoder (List.concat chunks)).

(** ** The streaming endpoint ([server.ts], [/api/chat/stream])

    The response as the handler and the listeners of the upstream session
    leave it. What [console.log] prints is not part of the response; the
    conversion of its argument to a string comes before the write of the
    listener and can throw, and is kept. *)

(** Whether the conversion of a value to a string throws. An object is
    converted by its [toString], and a TypeError is thrown when its own
    property of that name is not a function, as no property of the values
    here is: the [valueOf] that it inherits gives back the object. An array
    converts its elements, [null] and [undefined] apart, and joins them. *)
Fixpoint to_string_throws (v : value) : bool :=
  match v with
  | VObj fields =>
      match assoc (lit "toString") fields with
      | Some _ => true
      | None => false
      end
  | VArr items => existsb to_string_throws items
  | _ => false
  end.

(** [console.log(prefix + v)]: the concatenation converts [v] before
    anything is printed. *)
Definition console_log_concat (prefix : string) (v : value) : result unit :=
  if to_string_throws v
  then Throw (TypeError "Cannot convert object to primitive value")
  else Ok tt.

Record sse_response := mkSse {
  sse_status : option N;
  sse_headers : list (string * string);
  sse_json : option value;
  sse_written : list jsstring;
  sse_ended : bool
}.

Definition new_response : sse_response := mkSse None [] None [] false.

(** [res.write(chunk)]: nothing is sent once the response has ended. *)
Definition res_write (chunk : jsstring) (res : sse_response) : sse_response :=
  if sse_ended res then res
  else mkSse (sse_status res) (sse_headers res) (sse_json res)
         (sse_written res ++ [chunk]) false.

(** [res.end()] *)
Definition res_end (res : sse_response) : sse_response :=
  mkSse (sse_status res) (sse_headers res) (sse_json res) (sse_written res) true.

Definition envelope_message (msg : value) : value :=
  VObj [(lit "event", VStr (lit "message")); (lit "payload", msg)].

Definition envelope_final (data : value) : value :=
  VObj [(lit "event", VStr (lit "final")); (lit "data", data)].

(** A value of [JSON.stringify] inside a template literal. *)
Definition interpolate (json : option jsstring) : jsstring :=
  match json with
  | Some text => text
  | None => lit "undefined"
  end.

(** The text of a data frame: [data: ], the JSON text and a blank line. *)
Definition data_frame (json : jsstring) : jsstring :=
  lit "data: " ++ json ++ [10; 10].

Definition end_frame : jsstring := lit "event: end" ++ [10].

Definition error_frame : jsstring := lit "event: error" ++ [10].

(** What the upstream session emits. *)
Inductive upstream_event :=
| OnMessage (msg : value)
| OnFinalMessage (finalMsg : value)
| OnEnd
| OnError (err : exn).

Section Relay.

Variable parse : jsstring -> result value.
Variable stringify : value -> result (option jsstring).

(** [stream.on("message", ...)] *)
Definition on_message (msg : value) (res : sse_response) : result sse_response :=
  _ <- console_log_concat "msg" msg ;;
  json <- stringify (envelope_message msg) ;;
  Ok (res_write (data_frame (interpolate json)) res).

(** [stream.on("finalMessage", ...)] *)
Definition on_finalMessage (finalMsg : value) (res : sse_response)
    : result sse_response :=
  try_catch
    (data <- extractJsonFromResponse parse stringify finalMsg ;;
     _ <- console_log_concat "msg" finalMsg ;;
     json <- stringify (envelope_final data) ;;
     Ok (res_write (data_frame (interpolate json)) res))
    (fun _ => Ok res).

(** [stream.on("end", ...)] *)
Definition on_end (res : sse_response) : sse_response :=
  res_end (res_write end_frame res).

(** [stream.on("error", ...)]: the error is an [Error], whose conversion
    to a string for [console.log] throws nothing. *)
Definition on_error (err : exn) (res : sse_response) : sse_response :=
  res_end (res_write error_frame res).

Definition deliver (res : sse_response) (ev : upstream_event)
    : result sse_response :=
  match ev with
  | OnMessage msg => on_message msg res
  | OnFinalMessage finalMsg => on_finalMessage finalMsg res
  | OnEnd => Ok (on_end res)
  | OnError err => Ok (on_error err res)
  end.

(** The listeners run on the events of the session, in order. *)
Fixpoint relay (res : sse_response) (evs : list upstream_event)
    : result sse_response :=
  match evs with
  | [] => Ok res
  | ev :: evs' => res' <- deliver res ev ;; relay res' evs'
  end.

(** [openai.responses.stream] for a user message: the session opens or
    the call throws. *)
Variable stream : jsstring -> result unit.

Definition sse_headers_set : list (string * string) :=
  [("Content-Type", "text/event-stream");
   ("Cache-Control", "no-cache, no-transform");
   ("Connection", "keep-alive")]%string.

(** The [try] block of the handler, up to the registration of the
    listeners: the response, and whether a session was opened. *)
Definition stream_try (body : value) : result (sse_response * bool) :=
  let body := if truthy body then body else VObj [] in
  userMessage <- get body "userMessage" ;;
  match userMessage with
  | VStr (c :: m) =>
      _ <- stream (c :: m) ;;
      Ok (mkSse None sse_headers_set None [] false, true)
  | _ =>
      Ok (mkSse (Some 400) []
            (Some (VObj [(lit "error", VStr (lit "bad_request"));
                         (lit "message",
                          VStr (lit "userMessage (string) is required"))]))
            [] true, false)
  end.

(** The handler with the error middleware that [next(err)] reaches. *)
Definition post_api_chat_stream (body : value) : sse_response * bool :=
  match stream_try body with
  | Ok r => r
  | Throw e =>
      (mkSse (Some 500) sse_headers_set
         (Some (VObj [(lit "error", VStr (lit "internal_error"));
                      (lit "message", VStr (exn_message e))]))
         [] true, false)
  end.

End Relay.

(** The JSON texts of the data frames that the relay writes for a run of
    the upstream session, when [console.log] can print its payloads. *)
Definition frame_json (ev : upstream_event) : list jsstring :=
  match ev with
  | OnMessage msg =>
      [interpolate (JSON.serialize (envelope_message msg))]
  | OnFinalMessage finalMsg =>
      match extractJsonFromResponse JSON.parse JSON.stringify finalMsg with
      | Ok data => [interpolate (JSON.serialize (envelope_final data))]
      | Throw _ => []
      end
  | OnEnd | OnError _ => []
  end.

Definition no_line_feed (s : jsstring) : Prop := Forall (fun c => c <> 10) s.

Definition is_closing (ev : upstream_event) : bool :=
  match ev with
  | OnEnd | OnError _ => true
  | _ => false
  end.

(** An event whose payload [console.log] can print. *)
Definition loggable (ev : upstream_event) : bool :=
  match ev with
  | OnMessage msg => negb (to_string_throws msg)
  | OnFinalMessage finalMsg => negb (to_string_throws finalMsg)
  | OnEnd | OnError _ => true
  end.

(** The JSON texts that reach the wire: those of the events before the
    first [end] or [error]. *)
Fixpoint sent_json (evs : list upstream_event) : list jsstring :=
  match evs with
  | [] => []
  | ev :: evs' => if is_closing ev then [] else frame_json ev ++ sent_json evs'
  end.

(** The line that closes the stream, if the run has come to it. *)
Fixpoint closing_line (evs : list upstream_event) : jsstring :=
  match evs with
  | [] => []
  | OnEnd :: _ => end_frame
  | OnError _ :: _ => error_frame
  | _ :: evs' => closing_line evs'
  end.

(** The text on the wire for a run of the upstream session. *)
Definition wire_text (evs : list upstream_event) : jsstring :=
  List.concat (map data_frame (sent_json evs)) ++ closing_line evs.

(** The bytes of a text of ASCII characters. *)
Definition ascii_bytes (s : jsstring) : list Byte.byte :=
  flat_map (fun c => match Byte.of_N c with
                     | Some b => [b]
                     | None => []
                     end) s.

(** A run of the upstream session: two messages, the final message, the
    end. *)
Definition sample_run : list upstream_event :=
  [OnMessage (from_json "{'delta':'Jane'}");
   OnMessage (from_json "{'delta':' Doe'}");
   OnFinalMessage
     (from_json
        "{'output':[{'content':[{'type':'output_json','json':{'full_name':'Jane Doe','dob':'1991-04-12','passport_number':'AB1234567','nationality':'UK'}}]}]}");
   OnEnd].

(** A message of the upstream session with a property named [toString]. *)
Definition unprintable_payload : value :=
  from_json "{'delta':'Jane','toString':'Doe'}".

(** The events that a consumer with the parser [parse] makes of JSON
    texts. *)
Definition parsed_events (parse : jsstring -> result value)
    (texts : list jsstring) : list value :=
  flat_map (fun j => match parse j with
                     | Ok evt => [evt]
                     | Throw _ => []
                     end) texts.

(** The user message that a request body carries: a string that is not
    empty under the key [userMessage]. *)
Definition user_message (body : value) : option jsstring :=
  match own_prop (if truthy body then body else VObj []) (lit "userMessage") with
  | VStr (c :: m) => Some (c :: m)
  | _ => None
  end.

(** ** The body parser ([server.ts], [express.json({limit: "1mb"})])

    The middleware runs before the handlers, on a request that declares a
    body of JSON; [text] is the text of that body. Its errors go to the
    error middleware, as those of the handlers do. *)

(** The number of bytes of a text in UTF-8, the encoding in which it is
    sent: a surrogate pair makes four bytes, a surrogate alone the three of
    the replacement character. *)
Fixpoint utf8_length (s : jsstring) : N :=
  match s with
  | [] => 0
  | c :: s' =>
      if c <? 128 then 1 + utf8_length s'
      else if c <? 2048 then 2 + utf8_length s'
      else if JSON.is_high_surrogate c then
        match s' with
        | d :: s'' =>
            if JSON.is_low_surrogate d then 4 + utf8_length s''
            else 3 + utf8_length s'
        | [] => 3
        end
      else 3 + utf8_length s'
  end.

(** The limit ["1mb"] in bytes. *)
Definition body_limit : N := 1048576.

(** The first character that is not a space, a tab, a line feed or a
    carriage return. *)
Fixpoint first_char (s : jsstring) : option N :=
  match s with
  | [] => None
  | c :: s' =>
      if (c =? 32) || (c =? 9) || (c =? 10) || (c =? 13) then first_char s'
      else Some c
  end.

Definition PayloadTooLargeError : exn :=
  mkExn (lit "PayloadTooLargeError") (lit "request entity too large").

(** [req.body] for the text of a body: a body over the limit is refused;
    an empty body gives an empty object; in strict mode, which is the
    default, a text that does not start with an opening brace or bracket
    is refused before [JSON.parse] is called. *)
Definition express_json (text : jsstring) : result value :=
  if body_limit <? utf8_length text then Throw PayloadTooLargeError
  else
    match text with
    | [] => Ok (VObj [])
    | _ =>
        match first_char text with
        | Some c =>
            if (c =? 123) || (c =? 91) then JSON.parse text
            else Throw (SyntaxError "Unexpected token in JSON")
        | None => Throw (SyntaxError "Unexpected token in JSON")
        end
    end.

(** The answer of the error middleware. *)
Definition error_body (e : exn) : value :=
  VObj [(lit "error", VStr (lit "internal_error"));
        (lit "message", VStr (exn_message e))].

(** [/api/chat] and [/api/chat/stream] behind the body parser. *)
Definition api_chat (create : jsstring -> result value) (text : jsstring)
    : http_response :=
  match express_json text with
  | Ok body => post_api_chat JSON.parse JSON.stringify create body
  | Throw e => mkResponse 500 (error_body e)
  end.

Definition api_chat_stream (stream : jsstring -> result unit) (text : jsstring)
    : sse_response * bool :=
  match express_json text with
  | Ok body => post_api_chat_stream stream body
  | Throw e => (mkSse (Some 500) [] (Some (error_body e)) [] true, false)
  end.

(** ** The form ([App.tsx]: [validate], [goNext], [goBack], [submitIntake])

    The questions come from [questions.json], sorted by their order; they
    are a parameter here. Of a question the handlers read the key and the
    title. *)

Module Wizard.

Inductive QuestionKey := full_name | dob | nationality | passport_number.

Record QuestionDefinition := mkQuestion { key : QuestionKey; title : jsstring }.

Definition Answers := QuestionKey -> jsstring.

(** [validate(key, value)]: the message of the error, or [None] for null. *)
Definition validate (k : QuestionKey) (value : jsstring) : option jsstring :=
  match k with
  | full_name =>
      if truthy (VStr (trim value)) then None
      else Some (lit "Please enter your full name.")
  | dob =>
      if matches Dob value then None else Some (lit "Use format YYYY-MM-DD.")
  | nationality =>
      if truthy (VStr (trim value)) then None
      else Some (lit "Please enter your nationality.")
  | passport_number =>
      if (5 <=? List.length (trim value))%nat then None
      else Some (lit "Passport number looks too short.")
  end.

Record state := mkState {
  currentStep : Z;
  answers : Answers;
  wizardError : option jsstring;
  wizardLoading : bool;
  wizardFinalJson : value
}.

Definition setCurrentStep (f : Z -> Z) (w : state) : state :=
  mkState (f (currentStep w)) (answers w) (wizardError w) (wizardLoading w)
    (wizardFinalJson w).

Definition setWizardError (e : option jsstring) (w : state) : state :=
  mkState (currentStep w) (answers w) e (wizardLoading w) (wizardFinalJson w).

Definition setWizardLoading (b : bool) (w : state) : state :=
  mkState (currentStep w) (answers w) (wizardError w) b (wizardFinalJson w).

Definition setWizardFinalJson (v : value) (w : state) : state :=
  mkState (currentStep w) (answers w) (wizardError w) (wizardLoading w) v.

Definition initial (initialAnswers : Answers) : state :=
  mkState 0 initialAnswers None false VNull.

(** [parts.join(sep)] on strings *)
Fixpoint join (sep : jsstring) (parts : list jsstring) : jsstring :=
  match parts with
  | [] => []
  | [p] => p
  | p :: ps => p ++ sep ++ join sep ps
  end.

Section Handlers.

Variable questions : list QuestionDefinition.

(** [questions[i]]; reading a property of the [undefined] that an index
    out of the array gives throws. *)
Definition question_at (i : Z) : result QuestionDefinition :=
  if (i <? 0)%Z then Throw (TypeError "Cannot read properties of undefined")
  else
    match nth_error questions (Z.to_nat i) with
    | Some q => Ok q
    | None => Throw (TypeError "Cannot read properties of undefined")
    end.

(** [goNext]: the answer is a string, so that [value || ""] is the answer. *)
Definition goNext (w : state) : result state :=
  let cleared := setWizardError None w in
  if (Z.of_nat (List.length questions) <=? currentStep w)%Z then Ok cleared
  else
    step <- question_at (currentStep w) ;;
    let value := answers w (key step) in
    match validate (key step) value with
    | Some err => Ok (setWizardError (Some err) cleared)
    | None =>
        Ok (setCurrentStep
              (fun s => Z.min (s + 1) (Z.of_nat (List.length questions)))
              cleared)
    end.

(** [goBack] *)
Definition goBack (w : state) : state :=
  setCurrentStep (fun s => Z.max 0 (s - 1)) (setWizardError None w).

(** The loop of [submitIntake]: the first question whose answer is
    rejected, with its place and the message. *)
Fixpoint first_invalid (a : Answers) (qs : list QuestionDefinition) (i : nat)
    : option (nat * QuestionDefinition * jsstring) :=
  match qs with
  | [] => None
  | q :: qs' =>
      match validate (key q) (a (key q)) with
      | Some err => Some (i, q, err)
      | None => first_invalid a qs' (S i)
      end
  end.

(** The message sent: a line [title: answer] for each question. *)
Definition submit_message (a : Answers) : jsstring :=
  join [10] (map (fun q => title q ++ lit ": " ++ a (key q)) questions).

(** [submitIntake] up to its [fetch]: the state, and the message of the
    request when one is sent. *)
Definition submitIntake (w : state) : state * option jsstring :=
  let w := setWizardFinalJson VNull (setWizardError None w) in
  match first_invalid (answers w) questions 0 with
  | Some (i, q, err) =>
      (setCurrentStep (fun _ => Z.of_nat i)
         (setWizardError (Some (title q ++ lit ": " ++ err)) w), None)
  | None => (setWizardLoading true w, Some (submit_message (answers w)))
  end.

(** The step counter is a place in the list of questions, or the review
    step after the last question. *)
Definition in_range (w : state) : Prop :=
  (0 <= currentStep w <= Z.of_nat (List.length questions))%Z.

End Handlers.

(** What the [fetch] of [submitIntake] settles with, the body read as
    JSON. *)
Inductive reply :=
| Failed (e : exn)
| Replied (ok : bool) (status : N) (json : result value).

(** The rest of [submitIntake]. *)
Definition on_reply (w : state) (r : reply) : state :=
  let outcome :=
    match r with
    | Failed e => Throw e
    | Replied ok status json =>
        if negb ok then
          Throw (mkExn (lit "Error")
                   (lit "Submit failed (" ++ N_digits status ++ lit ")"))
        else json
    end in
  setWizardLoading false
    (match outcome with
     | Ok json => setWizardFinalJson (coalesce (get_opt json "data") VNull) w
     | Throw e =>
         setWizardError (Some (match exn_message e with
                               | [] => lit "Submission error"
                               | m => m
                               end)) w
     end).

End Wizard.

(** The body of the requests of the client: [JSON.stringify({userMessage})]. *)
Definition request_body (userMessage : jsstring) : value :=
  VObj [(lit "userMessage", VStr userMessage)].

(** ** More sample data *)

Definition sample_questions : list Wizard.QuestionDefinition :=
  [Wizard.mkQuestion Wizard.full_name (lit "What is your full name?");
   Wizard.mkQuestion Wizard.dob (lit "What is your date of birth?");
   Wizard.mkQuestion Wizard.nationality (lit "What is your nationality?");
   Wizard.mkQuestion Wizard.passport_number (lit "What is your passport number?")].

Definition sample_answers : Wizard.Answers :=
  fun k =>
    match k with
    | Wizard.full_name => lit "Jane Doe"
    | Wizard.dob => lit "1991-04-12"
    | Wizard.nationality => lit "UK"
    | Wizard.passport_number => lit "AB1234567"
    end.

(** The answers with a date of birth in another format. *)
Definition answers_with_bad_date : Wizard.Answers :=
  fun k =>
    match k with
    | Wizard.dob => lit "12/04/1991"
    | _ => sample_answers k
    end.

(** The form on its second question. *)
Definition form_on_date (a : Wizard.Answers) : Wizard.state :=
  Wizard.mkState 1 a None false VNull.

Definition network_error : exn := mkExn (lit "TypeError") (lit "Failed to fetch").

Definition complete_response : value :=
  from_json
    "{'output_text':'{\'full_name\':\'Jane Doe\'}','output':[]}".

(** A response of the provider whose text is an object with one field of
    the four. *)
Definition partial_response : value :=
  from_json
    "{'output_text':'{\'full_name\':\'Jane Doe\'}','output':[]}".

Definition second_message_frame : jsstring :=
  jtext "data: {'event':'message','payload':{'delta':' Doe'}}".

(** * Properties *)

(** ** Strings and values *)

Lemma str_eqb_refl (s : jsstring) : str_eqb s s = true.
Proof.
  induction s as [|c s IH]; simpl; [reflexivity|].
  now rewrite N.eqb_refl, IH.
Qed.

Lemma str_eqb_eq (a b : jsstring) : str_eqb a b = true <-> a = b.
Proof.
  split.
  - revert b; induction a as [|x a IH]; intros [|y b]; simpl; try discriminate; auto.
    intros H. apply andb_true_iff in H as [Hx Hs].
    apply N.eqb_eq in Hx. apply IH in Hs. congruence.
  - intros ->. apply str_eqb_refl.
Qed.

Lemma truthy_not_nullish (v : value) : truthy v = true -> nullish v = false.
Proof. destruct v; simpl; congruence. Qed.

Lemma get_truthy (v : value) (k : string) :
  truthy v = true -> get v k = Ok (own_prop v (lit k)).
Proof. intros H. unfold get. now rewrite (truthy_not_nullish v H). Qed.

(** ** [extractTextFromPayload] *)

Lemma text_of_block (c : value) :
  (if nullish (text_or_null c) then [] else to_string (text_or_null c))
  = block_text c.
Proof.
  unfold text_or_null, block_text, string_field, object_field, get_opt.
  destruct c as [| |b|x|s|items|fs]; try reflexivity.
  simpl. destruct (assoc (lit "text") fs) as [[| |b|x|s|items|fs']|]; reflexivity.
Qed.

Lemma text_or_null_shape (c : value) :
  text_or_null c = VNull \/ exists s, text_or_null c = VStr s.
Proof.
  unfold text_or_null.
  destruct (get_opt c "text") as [| |b|x|s|l|fs]; cbn; eauto.
Qed.

Lemma join_string_blocks (items : list value) :
  join_empty (filter truthy (map text_or_null items))
  = List.concat (map block_text items).
Proof.
  unfold join_empty.
  induction items as [|c items IH]; [reflexivity|].
  cbn [map filter]. rewrite <- (text_of_block c).
  destruct (text_or_null_shape c) as [->|[[|u s] ->]];
    cbn [truthy nullish map List.concat to_string]; try exact IH.
  now rewrite IH.
Qed.

Lemma content_blocks_attempt (payload : value) :
  match get_opt (get_opt (get_opt (get_opt payload "response") "output") "0")
          "content" with
  | VArr items =>
      let parts := join_empty (filter truthy (map text_or_null items)) in
      if truthy (VStr parts) then Ok (Some parts) else Ok None
  | _ => Ok None
  end = Ok (by_content_blocks payload).
Proof.
  unfold by_content_blocks, at_path. cbn [fold_left].
  destruct (get_opt _ "content") as [| |b|x|s|items|fs]; try reflexivity.
  cbv zeta. rewrite join_string_blocks.
  destruct (List.concat (map block_text items)); reflexivity.
Qed.

Lemma extractTextFromPayload_refines (payload : value) :
  extractTextFromPayload payload = Ok (extract_text_spec payload).
Proof.
  unfold extractTextFromPayload, extract_text_spec.
  rewrite content_blocks_attempt.
  cbn [first_applicable try_catch].
  destruct payload as [| |b|x|s|items|fs];
    try reflexivity;
    try (destruct b; reflexivity);
    try (simpl; destruct (number_is_zero x); reflexivity);
    try (destruct s; reflexivity);
    try (cbn; destruct (by_content_blocks (VArr items)); reflexivity).
  - unfold by_delta, by_text, by_data_text, string_field, object_field.
    cbn -[lit by_content_blocks].
    destruct (assoc (lit "delta") fs) as [[| |b|x|s|items|fs1]|];
      try reflexivity;
      (destruct (assoc (lit "text") fs) as [[| |b2|x2|s2|items2|fs2]|];
       try reflexivity;
       (destruct (assoc (lit "data") fs) as [[| |b3|x3|s3|items3|fs3]|];
        cbn -[lit by_content_blocks];
        try (destruct b3; cbn -[lit by_content_blocks]);
        try (destruct (number_is_zero x3); cbn -[lit by_content_blocks]);
        try (destruct s3; cbn -[lit by_content_blocks]);
        try (destruct (assoc (lit "text") fs3) as [[| |b4|x4|s4|items4|fs4]|];
             cbn -[lit by_content_blocks]);
        try reflexivity;
        destruct (by_content_blocks (VObj fs)); reflexivity)).
Qed.

(** C2. [extractTextFromPayload] is total: on every payload it returns,
    without throwing, the text of the first applicable attempt among a
    top-level string [delta], a top-level string [text], a string [text]
    under a [data] object, and the non-empty concatenation of the string
    [text] fields of the blocks at [response.output[0].content]; the empty
    string when none applies. The five payloads of the specification give
    ab, cd, ef, gh and the empty string. *)
Theorem C2_extractTextFromPayload_first_applicable :
  (forall payload : value,
     extractTextFromPayload payload = Ok (extract_text_spec payload))
  /\ (p <- JSON.parse (jtext "{'delta':'ab'}") ;; extractTextFromPayload p)
     = Ok (lit "ab")
  /\ (p <- JSON.parse (jtext "{'text':'cd'}") ;; extractTextFromPayload p)
     = Ok (lit "cd")
  /\ (p <- JSON.parse (jtext "{'data':{'text':'ef'}}") ;; extractTextFromPayload p)
     = Ok (lit "ef")
  /\ (p <- JSON.parse
            (jtext "{'response':{'output':[{'content':[{'text':'g'},{'text':'h'}]}]}}") ;;
      extractTextFromPayload p)
     = Ok (lit "gh")
  /\ (p <- JSON.parse (jtext "{}") ;; extractTextFromPayload p) = Ok []
  /\ (p <- JSON.parse (jtext "null") ;; extractTextFromPayload p) = Ok [].
Proof.
  split; [exact extractTextFromPayload_refines|].
  repeat split; vm_compute; reflexivity.
Qed.

(** ** One frame *)

Section FrameFacts.

Variable parse : jsstring -> result value.

Lemma on_event_effect (evt : value) (st : ui_state) :
  swallow (on_event evt) st = apply_event evt st.
Proof.
  unfold on_event, swallow, apply_event, is_event, bind_action, lift, done,
    setEvents, setTranscript, setFinalJson, get.
  destruct (nullish evt) eqn:Hn; cbn [fst negb andb]; [reflexivity|].
  cbn [events error finalJson transcript isStreaming].
  destruct (strict_eq_str (own_prop evt (lit "event")) (lit "message")) eqn:Hm.
  - assert (Hf : strict_eq_str (own_prop evt (lit "event")) (lit "final") = false).
    { destruct (own_prop evt (lit "event")); try reflexivity.
      cbn [strict_eq_str] in *. apply str_eqb_eq in Hm. subst s. reflexivity. }
    rewrite Hf. cbn [fst andb].
    destruct (truthy (own_prop evt (lit "payload"))) eqn:Hp; cbn [fst].
    + rewrite extractTextFromPayload_refines.
      cbn [events error finalJson transcript isStreaming].
      destruct (extract_text_spec (own_prop evt (lit "payload"))) eqn:Ht;
        cbn [truthy fst events error finalJson transcript isStreaming].
      * now rewrite app_nil_r.
      * reflexivity.
    + reflexivity.
  - cbn [fst andb].
    destruct (strict_eq_str (own_prop evt (lit "event")) (lit "final"));
      reflexivity.
Qed.

Lemma process_frame_event (st : ui_state) (chunk : jsstring) :
  process_frame parse st chunk =
  match frame_event parse chunk with
  | Some evt => apply_event evt st
  | None => st
  end.
Proof.
  unfold process_frame, frame_event.
  destruct (startsWith (trim chunk) (lit "data:")); cbn [negb]; [|reflexivity].
  destruct (parse (strip_data (trim chunk))) as [evt|e] eqn:Hp.
  - rewrite <- on_event_effect. unfold swallow, bind_action, lift.
    reflexivity.
  - reflexivity.
Qed.

Lemma process_frames_app (st : ui_state) (a b : list jsstring) :
  process_frames parse st (a ++ b)
  = process_frames parse (process_frames parse st a) b.
Proof. unfold process_frames. apply fold_left_app. Qed.

End FrameFacts.

(** ** Complete frames: [final] events and dropped frames *)

Section StreamFacts.

Variable parse : jsstring -> result value.

Lemma finalJson_kept (st : ui_state) (frames : list jsstring) :
  (forall g e, In g frames -> frame_event parse g = Some e ->
               is_event "final" e = false) ->
  finalJson (process_frames parse st frames) = finalJson st.
Proof.
  revert st. induction frames as [|g frames IH]; intros st H; [reflexivity|].
  unfold process_frames in *. cbn [fold_left].
  rewrite IH by (intros g' e Hin; apply H; now right).
  rewrite process_frame_event.
  destruct (frame_event parse g) as [e|] eqn:He; [|reflexivity].
  unfold apply_event. cbn [finalJson].
  now rewrite (H g e (or_introl eq_refl) He).
Qed.

Lemma dropped_frame (st : ui_state) (chunk : jsstring) :
  frame_event parse chunk = None -> process_frame parse st chunk = st.
Proof. intros H. now rewrite process_frame_event, H. Qed.

Lemma frame_event_none (chunk : jsstring) :
  startsWith (trim chunk) (lit "data:") = false
  \/ (exists e, parse (strip_data (trim chunk)) = Throw e) ->
  frame_event parse chunk = None.
Proof.
  unfold frame_event. intros [H|[e H]].
  - now rewrite H.
  - rewrite H. now destruct (startsWith _ _).
Qed.

End StreamFacts.

(** C6. A [final] event replaces the final result by its [data] field, or
    by [null] when the field is absent or null, whatever the state was
    before; the last [final] event of a sequence of frames decides the
    result. *)
Theorem C6_final_event_replaces_result
    (parse : jsstring -> result value) (st : ui_state)
    (before after : list jsstring) (chunk : jsstring) (evt : value) :
  frame_event parse chunk = Some evt ->
  is_event "final" evt = true ->
  (forall g e, In g after -> frame_event parse g = Some e ->
               is_event "final" e = false) ->
  finalJson (process_frame parse st chunk)
    = coalesce (own_prop evt (lit "data")) VNull
  /\ finalJson (process_frames parse st (before ++ chunk :: after))
    = coalesce (own_prop evt (lit "data")) VNull
  /\ (nullish (own_prop evt (lit "data")) = true ->
      finalJson (process_frame parse st chunk) = VNull)
  /\ (nullish (own_prop evt (lit "data")) = false ->
      finalJson (process_frame parse st chunk) = own_prop evt (lit "data")).
Proof.
  intros Hevt Hfinal Hafter.
  assert (Hone : forall st', finalJson (process_frame parse st' chunk)
                        = coalesce (own_prop evt (lit "data")) VNull).
  { intros st'. rewrite process_frame_event, Hevt.
    unfold apply_event. cbn [finalJson]. now rewrite Hfinal. }
  repeat split.
  - apply Hone.
  - rewrite process_frames_app. unfold process_frames at 1.
    cbn [fold_left]. fold (process_frames parse).
    change (fold_left (process_frame parse) after ?s)
      with (process_frames parse s after).
    rewrite finalJson_kept by exact Hafter. apply Hone.
  - intros Hn. rewrite Hone. unfold coalesce. now rewrite Hn.
  - intros Hn. rewrite Hone. unfold coalesce. now rewrite Hn.
Qed.

(** C10. A payload whose top-level [delta] is the empty string yields the
    empty string, whatever its other fields carry, and a [message] event
    with such a payload leaves the transcript as it was. *)
Theorem C10_empty_delta_takes_priority (payload : value) :
  by_delta payload = Some [] ->
  extractTextFromPayload payload = Ok []
  /\ forall (evt : value) (st : ui_state),
       is_event "message" evt = true ->
       own_prop evt (lit "payload") = payload ->
       transcript (swallow (on_event evt) st) = transcript st.
Proof.
  intros Hd.
  assert (Hs : extract_text_spec payload = []).
  { unfold extract_text_spec. cbn [first_applicable]. now rewrite Hd. }
  split.
  - now rewrite extractTextFromPayload_refines, Hs.
  - intros evt st Hm Hp. rewrite on_event_effect.
    unfold apply_event. cbn [transcript]. rewrite Hm, Hp, Hs.
    rewrite app_nil_r. now destruct (_ && _).
Qed.

(** ** Chunking *)

Lemma cons_head_nonempty (c : N) (parts : list jsstring) :
  cons_head c parts <> [].
Proof. destruct parts; discriminate. Qed.

Lemma split_nn_nonempty (s : jsstring) : split_nn s <> [].
Proof.
  destruct s as [|c [|d s]]; cbn; try discriminate.
  destruct ((c =? 10) && (d =? 10)); [discriminate|apply cons_head_nonempty].
Qed.

Lemma split_nn_cons (c d : N) (s : jsstring) :
  split_nn (c :: d :: s) =
  if (c =? 10) && (d =? 10) then [] :: split_nn s
  else cons_head c (split_nn (d :: s)).
Proof. reflexivity. Qed.

(** Induction on strings two units at a time, as [split_nn] recurses. *)
Lemma jsstring_pair_ind (P : jsstring -> Prop) :
  P [] ->
  (forall c, P [c]) ->
  (forall c d s, P s -> P (d :: s) -> P (c :: d :: s)) ->
  forall s, P s.
Proof.
  intros H0 H1 H2 s.
  enough (H : P s /\ forall c, P (c :: s)) by apply H.
  induction s as [|d s [IHs IHc]]; split; auto.
Qed.

(** A text without a blank line is its only piece. *)
Lemma split_nn_single (s p : jsstring) : split_nn s = [p] -> p = s.
Proof.
  revert p. induction s as [|c|c d s _ IH] using jsstring_pair_ind; intros p.
  - cbn. congruence.
  - cbn. congruence.
  - rewrite split_nn_cons. destruct ((c =? 10) && (d =? 10)).
    + intros H. injection H as _ H. now destruct (split_nn_nonempty s).
    + destruct (split_nn (d :: s)) as [|q [|q' l]] eqn:Hs; cbn; intros H.
      * now destruct (split_nn_nonempty (d :: s)).
      * injection H as <-. now rewrite (IH q eq_refl).
      * discriminate.
Qed.

Lemma last_app_nonempty {A} (l l' : list A) (d : A) :
  l' <> [] -> last (l ++ l') d = last l' d.
Proof.
  intros H. induction l as [|x l IH]; [reflexivity|].
  cbn [app last]. rewrite IH.
  destruct (l ++ l') eqn:E; [|reflexivity].
  apply app_eq_nil in E as [_ E]. contradiction.
Qed.

(** The pieces of a text that grows: the complete pieces stay, and the
    last piece is split again with what was appended. *)
Lemma split_nn_app (s t : jsstring) :
  split_nn (s ++ t)
  = removelast (split_nn s) ++ split_nn (last (split_nn s) [] ++ t).
Proof.
  induction s as [|c|c d s IHs IHd] using jsstring_pair_ind.
  - reflexivity.
  - reflexivity.
  - cbn [app]. rewrite !split_nn_cons.
    destruct ((c =? 10) && (d =? 10)) eqn:Hnl.
    + rewrite IHs.
      destruct (split_nn s) as [|p l] eqn:Hs;
        [now destruct (split_nn_nonempty s)|reflexivity].
    + change (d :: s ++ t) with ((d :: s) ++ t). rewrite IHd.
      destruct (split_nn (d :: s)) as [|p [|q l]] eqn:Hs.
      * now destruct (split_nn_nonempty (d :: s)).
      * apply split_nn_single in Hs. subst p.
        cbn [cons_head removelast last app].
        rewrite split_nn_cons, Hnl. reflexivity.
      * reflexivity.
Qed.

Lemma decode_app (td : TextDecoder) (a b : list Byte.byte) :
  decode td (a ++ b) =
  let (td1, o1) := decode td a in
  let (td2, o2) := decode td1 b in
  (td2, o1 ++ o2).
Proof.
  revert td. induction a as [|x a IH]; intros td; cbn [app decode].
  - now destruct (decode td b).
  - destruct (decode_byte td x) as [td1 o1]. rewrite IH.
    destruct (decode td1 a) as [td2 o2], (decode td2 b) as [td3 o3].
    now rewrite app_assoc.
Qed.

Section ChunkFacts.

Variable parse : jsstring -> result value.

(** Two reads in a row are one read of the two chunks joined. *)
Lemma read_chunk_app (s : ui_state * reader) (a b : list Byte.byte) :
  read_chunk parse (read_chunk parse s a) b = read_chunk parse s (a ++ b).
Proof.
  destruct s as [st rd]. unfold read_chunk.
  rewrite decode_app.
  destruct (decode (decoder rd) a) as [d1 t1]. cbn [decoder buffer].
  destruct (decode d1 b) as [d2 t2].
  rewrite app_assoc, (split_nn_app (buffer rd ++ t1) t2).
  set (parts1 := split_nn (buffer rd ++ t1)).
  set (parts2 := split_nn (last parts1 [] ++ t2)).
  assert (H2 : parts2 <> []) by apply split_nn_nonempty.
  rewrite (removelast_app _ H2), (last_app_nonempty _ _ _ H2).
  now rewrite process_frames_app.
Qed.

Lemma read_chunks_concat (s : ui_state * reader) (c : list Byte.byte)
    (chunks : list (list Byte.byte)) :
  fold_left (read_chunk parse) (c :: chunks) s
  = read_chunk parse s (List.concat (c :: chunks)).
Proof.
  revert s c. induction chunks as [|c' chunks IH]; intros s c.
  - cbn. now rewrite app_nil_r.
  - change (fold_left (read_chunk parse) (c :: c' :: chunks) s)
      with (fold_left (read_chunk parse) (c' :: chunks) (read_chunk parse s c)).
    rewrite IH, read_chunk_app. reflexivity.
Qed.

End ChunkFacts.

(** C1. However the bytes of a stream are cut into chunks, inside a
    multi-byte character or inside the blank line as well, the read loop
    ends in the state it reaches when the whole stream arrives as one
    chunk: the same event log in the same order, the same transcript and
    final result, the same pending buffer and decoder. *)
Theorem C1_chunking_invariant
    (parse : jsstring -> result value) (st : ui_state)
    (chunks : list (list Byte.byte)) :
  read_loop parse st chunks = read_loop parse st [List.concat chunks]
  /\ events (fst (read_loop parse st chunks))
     = events (fst (read_loop parse st [List.concat chunks])).
Proof.
  assert (H : read_loop parse st chunks = read_loop parse st [List.concat chunks]).
  { unfold read_loop. destruct chunks as [|c chunks]; [reflexivity|].
    rewrite read_chunks_concat. reflexivity. }
  split; [exact H|now rewrite H].
Qed.

(** ** [extractJsonFromResponse] *)

Section ExtractionFacts.

Variable parse : jsstring -> result value.
Variable stringify : value -> result (option jsstring).

Lemma extractJsonFromResponse_refines (r : value) :
  extractJsonFromResponse parse stringify r
  = Ok (extract_json_spec parse stringify r).
Proof.
  unfold extractJsonFromResponse, extract_attempts, extract_json_spec,
    attempt_text, attempt_structured, attempt_scan, parsed, at_path, get.
  cbn [fold_left].
  destruct (nullish r) eqn:Hn; [reflexivity|].
  cbn [bind].
  destruct (truthy (own_prop r (lit "output_text"))).
  - destruct (parse (to_string (own_prop r (lit "output_text")))) as [v|e];
      cbn [bind try_catch]; [reflexivity|].
    destruct (strict_eq_str _ (lit "output_json")) eqn:Ht.
    + assert (Hc : nullish (get_opt (get_opt (get_opt (get_opt r "output") "0")
                                       "content") "0") = false).
      { destruct (get_opt (get_opt (get_opt (get_opt r "output") "0")
                             "content") "0"); try reflexivity; discriminate. }
      rewrite Hc. reflexivity.
    + destruct (stringify r) as [[raw|]|e']; cbn [bind try_catch]; try reflexivity.
      destruct (match_braces raw) as [m|]; [|reflexivity].
      destruct (parse m); reflexivity.
  - cbn [bind try_catch].
    destruct (strict_eq_str _ (lit "output_json")) eqn:Ht.
    + assert (Hc : nullish (get_opt (get_opt (get_opt (get_opt r "output") "0")
                                       "content") "0") = false).
      { destruct (get_opt (get_opt (get_opt (get_opt r "output") "0")
                             "content") "0"); try reflexivity; discriminate. }
      rewrite Hc. reflexivity.
    + destruct (stringify r) as [[raw|]|e']; cbn [bind try_catch]; try reflexivity.
      destruct (match_braces raw) as [m|]; [|reflexivity].
      destruct (parse m); reflexivity.
Qed.

End ExtractionFacts.

(** The serialization of an object response begins and ends with a brace,
    so the scan of attempt (c) takes all of it. *)
Lemma scan_takes_whole_object (fs : list (jsstring * value)) :
  exists raw, JSON.stringify (VObj fs) = Ok (Some raw)
              /\ match_braces raw = Some raw.
Proof.
  unfold JSON.stringify. cbn [JSON.serialize].
  eexists. split; [reflexivity|].
  unfold match_braces. cbn [app from_first_brace]. rewrite N.eqb_refl.
  rewrite app_comm_cons, last_last. reflexivity.
Qed.



(** C4 on the code. The response whose text is [not json] is an object, so
    attempt (c) parses its whole serialization and the extraction returns
    that response; the endpoint answers with it as [data], not with null. *)
Theorem C4_not_json_returns_the_response :
  let r := from_json
    "{'output_text':'not json','output':[{'type':'message','content':[{'type':'output_text','text':'not json'}]}]}" in
  attempt_text JSON.parse r = None
  /\ extractJsonFromResponse JSON.parse JSON.stringify r = Ok r
  /\ post_api_chat JSON.parse JSON.stringify (fun _ => Ok r)
       (from_json "{'userMessage':'I am Jane Doe'}")
     = mkResponse 200 (VObj [(lit "data", r)])
  /\ r <> VNull.
Proof.
  repeat split; try (vm_compute; reflexivity).
  vm_compute. discriminate.
Qed.

(** ** The final result and the schema *)

(** C5 on the code. Nothing checks the result against the schema, which
    is only handed to the provider. When the text of the provider's
    response is an object with one field of the four, the extraction
    returns that object, [/api/chat] answers 200 with it, the relay writes
    it in the [final] event, and the consumer that reads this frame puts
    it in the final result: a partial object, neither a complete Structured
    Intake Result nor null. *)
Theorem C5_partial_result_surfaced :
  let partial := from_json "{'full_name':'Jane Doe'}" in
  let frame := "{'event':'final','data':{'full_name':'Jane Doe'}}"%string in
  let st := fst (read_loop JSON.parse initial_ui [sse_frame frame]) in
  validate VisaIntakeSchema partial = false
  /\ extractJsonFromResponse JSON.parse JSON.stringify partial_response
     = Ok partial
  /\ post_api_chat JSON.parse JSON.stringify (fun _ => Ok partial_response)
       (request_body (lit "I am Jane Doe"))
     = mkResponse 200 (VObj [(lit "data", partial)])
  /\ relay JSON.parse JSON.stringify new_response
       [OnFinalMessage partial_response]
     = Ok (mkSse None [] None [lit "data: " ++ jtext frame ++ [10; 10]] false)
  /\ decoded [sse_frame frame] = lit "data: " ++ jtext frame ++ [10; 10]
  /\ finalJson st = partial
  /\ intake_or_null (finalJson st) = false.
Proof. repeat split; vm_compute; reflexivity. Qed.

(** ** Sessions: cancelling and starting *)

Lemma find_session_drop (id : nat) (l : list (nat * phase)) :
  find_session id (drop_session id l) = None.
Proof.
  unfold drop_session.
  induction l as [|[i ph] l IH]; [reflexivity|].
  cbn [filter fst]. destruct (Nat.eqb i id) eqn:E; cbn [negb]; [exact IH|].
  cbn [find_session]. now rewrite E.
Qed.

Lemma find_session_app (id : nat) (l l' : list (nat * phase)) :
  find_session id (l ++ l') =
  match find_session id l with
  | Some ph => Some ph
  | None => find_session id l'
  end.
Proof.
  induction l as [|[i ph] l IH]; [reflexivity|].
  cbn [app find_session]. now destruct (Nat.eqb i id).
Qed.

(** [startStream] cancels nothing and ends no session. *)
Lemma startStream_keeps_sessions (c : component) (id : nat) :
  is_active id c = true ->
  is_active id (startStream c) = true
  /\ is_aborted id (startStream c) = is_aborted id c.
Proof.
  unfold is_active, is_aborted, startStream. cbn [sessions aborted].
  rewrite find_session_app.
  destruct (find_session id (sessions c)); [auto|discriminate].
Qed.

Lemma on_catch_abort (st : ui_state) : on_catch AbortError st = st.
Proof. reflexivity. Qed.

(** When the controller that the component stores is that of the session
    in progress, [stopStream] clears nothing: the transcript, the event
    log, the final result and the error state stay as they were, at the
    call and when the suspended loop resumes, whatever it was waiting for;
    the loop is then over. *)
Lemma stop_ends_the_stored_session
    (parse : jsstring -> result value) (c : component) (id : nat) (o : outcome) :
  controllerRef c = Some id ->
  is_active id c = true ->
  let stopped := stopStream c in
  let resumed := resume parse stopped id o in
  (transcript (ui stopped), events (ui stopped), finalJson (ui stopped),
   error (ui stopped))
  = (transcript (ui c), events (ui c), finalJson (ui c), error (ui c))
  /\ (transcript (ui resumed), events (ui resumed), finalJson (ui resumed),
      error (ui resumed))
     = (transcript (ui c), events (ui c), finalJson (ui c), error (ui c))
  /\ is_active id resumed = false
  /\ isStreaming (ui resumed) = false.
Proof.
  intros Href Hact. cbv zeta.
  split; [reflexivity|].
  unfold resume, stopStream, is_active, is_aborted in *.
  cbn [sessions aborted ui]. rewrite Href.
  destruct (find_session id (sessions c)) as [ph|] eqn:Hs; [|discriminate].
  cbn [existsb]. rewrite Nat.eqb_refl. cbn [orb].
  assert (Hfin : forall st, find_session id (sessions (on_finally id
                         (with_ui (on_catch AbortError st) (stopStream c)))) = None).
  { intros st. cbn [on_finally sessions]. apply find_session_drop. }
  unfold stopStream in Hfin. rewrite Href in Hfin.
  destruct ph as [|rd]; rewrite Hfin, on_catch_abort; repeat split; reflexivity.
Qed.

(** C8 on the code. The controller that [stopStream] aborts is the one
    stored, which need not be that of the stream in progress: [startStream]
    stores a new one over it without aborting, and the [finally] of any
    invocation clears it. In the first run two streams are started and the
    first comes to its end; in the second a stream is stopped and another
    started before the loop of the first has resumed. In both, the stream
    that is left is in progress with no controller stored; [stopStream]
    then clears nothing and sets no error, but it aborts nothing either:
    the loop does not terminate and the next chunk is still added to the
    transcript. *)
Theorem C8_cancel_misses_the_stream_in_progress :
  let step := resume JSON.parse in
  let jane := Chunk (sse_frame "{'event':'message','payload':{'delta':'Jane'}}") in
  let doe := Chunk (sse_frame "{'event':'message','payload':{'delta':' Doe'}}") in
  let ok := Response true true 200 in
  let two_starts :=
    step (step (step (step (startStream (startStream initial_component))
                        0%nat ok) 1%nat ok) 0%nat Done) 1%nat jane in
  let restarted :=
    step (step (step (startStream
                        (stopStream (step (startStream initial_component)
                                       0%nat ok)))
                  0%nat jane) 1%nat ok) 1%nat jane in
  Forall (fun running =>
    let cancelled := stopStream running in
    let later := step cancelled 1%nat doe in
    is_active 1 running = true
    /\ is_active 0 running = false
    /\ controllerRef running = None
    /\ transcript (ui running) = lit "Jane"
    /\ (transcript (ui cancelled), events (ui cancelled),
        finalJson (ui cancelled), error (ui cancelled))
       = (transcript (ui running), events (ui running),
          finalJson (ui running), error (ui running))
    /\ is_aborted 1 cancelled = false
    /\ is_active 1 later = true
    /\ transcript (ui later) = lit "Jane Doe"
    /\ error (ui later) = None) [two_starts; restarted].
Proof.
  cbv zeta. repeat constructor; vm_compute; reflexivity.
Qed.

(** C9 on the code. A second [startStream] stores a new controller over
    the first without aborting it: both sessions are active, both loops
    append to the one transcript, and once the first loop ends its
    [finally] clears the stored controller, so that [stopStream] no longer
    cancels the second. *)
Theorem C9_second_start_leaves_first_running :
  let c := startStream (startStream initial_component) in
  let step := resume JSON.parse in
  let racing :=
    step (step (step (step c 0%nat (Response true true 200))
                  1%nat (Response true true 200))
            0%nat (Chunk (sse_frame "{'event':'message','payload':{'delta':'A'}}")))
      1%nat (Chunk (sse_frame "{'event':'message','payload':{'delta':'B'}}")) in
  let first_over := step racing 0%nat Done in
  controllerRef c = Some 1%nat
  /\ is_active 0 c = true /\ is_active 1 c = true
  /\ is_aborted 0 c = false
  /\ transcript (ui racing) = lit "AB"
  /\ is_active 1 first_over = true
  /\ controllerRef first_over = None
  /\ is_aborted 1 (stopStream first_over) = false.
Proof. repeat split; vm_compute; reflexivity. Qed.

(** ** Runs *)

(** The scenario of the specification: two messages, the final result and
    the closing line. *)
Example end_to_end_scenario :
  let stream :=
    sse_frame "{'event':'message','payload':{'delta':'Jane'}}"
    ++ sse_frame "{'event':'message','payload':{'delta':' Doe'}}"
    ++ sse_frame ("{'event':'final','data':" ++ complete_intake ++ "}")
    ++ bytes_of "event: end" ++ [Byte.x0a] in
  let st := fst (read_loop JSON.parse initial_ui [stream]) in
  transcript st = lit "Jane Doe"
  /\ finalJson st = from_json complete_intake
  /\ intake_or_null (finalJson st) = true
  /\ List.length (events st) = 3%nat.
Proof. repeat split; vm_compute; reflexivity. Qed.

(** One cut between the two bytes of a character, one between the two
    line feeds of the blank line. *)
Example cuts_inside_character_and_blank_line :
  let n := List.length cafe_stream in
  let chunks :=
    [firstn 49 cafe_stream;
     firstn (n - 50) (skipn 49 cafe_stream);
     skipn (n - 1) cafe_stream] in
  List.concat chunks = cafe_stream
  /\ nth 48 cafe_stream Byte.x00 = Byte.xc3
  /\ skipn (n - 1) cafe_stream = [Byte.x0a]
  /\ transcript (fst (read_loop JSON.parse initial_ui chunks))
     = lit "caf" ++ [233].
Proof. repeat split; vm_compute; reflexivity. Qed.

(** ** The theorems at concrete inputs *)

Lemma C6_witness :
  finalJson (process_frame JSON.parse initial_ui final_frame)
    = from_json complete_intake
  /\ finalJson (process_frames JSON.parse initial_ui
                  ([stale_final_frame] ++ final_frame :: [message_frame; end_line]))
    = from_json complete_intake.
Proof.
  pose proof (C6_final_event_replaces_result JSON.parse initial_ui
                [stale_final_frame] [message_frame; end_line] final_frame
                (from_json ("{'event':'final','data':" ++ complete_intake ++ "}")))
    as H.
  destruct H as (H1 & H2 & _).
  - vm_compute. reflexivity.
  - vm_compute. reflexivity.
  - intros g e [<-|[<-|[]]] He; vm_compute in He; try discriminate.
    assert (E : e = from_json "{'event':'message','payload':{'delta':'Jane'}}")
      by (vm_compute; congruence).
    rewrite E. vm_compute. reflexivity.
  - split; [exact H1|exact H2].
Defined.

Example stop_ends_the_first_session :
  transcript (ui streaming_component) = lit "Jane"
  /\ let stopped := stopStream streaming_component in
     let resumed :=
       resume JSON.parse stopped 0%nat
         (Chunk (sse_frame "{'event':'final','data':null}")) in
     (transcript (ui stopped), events (ui stopped), finalJson (ui stopped),
      error (ui stopped))
     = (transcript (ui streaming_component), events (ui streaming_component),
        finalJson (ui streaming_component), error (ui streaming_component))
     /\ (transcript (ui resumed), events (ui resumed), finalJson (ui resumed),
         error (ui resumed))
        = (transcript (ui streaming_component), events (ui streaming_component),
           finalJson (ui streaming_component), error (ui streaming_component))
     /\ is_active 0 resumed = false
     /\ isStreaming (ui resumed) = false.
Proof.
  split; [vm_compute; reflexivity|].
  apply (stop_ends_the_stored_session JSON.parse streaming_component 0%nat
           (Chunk (sse_frame "{'event':'final','data':null}")));
    vm_compute; reflexivity.
Defined.

Lemma C10_witness :
  by_text empty_delta_payload = Some (lit "later")
  /\ extractTextFromPayload empty_delta_payload = Ok []
  /\ transcript
       (swallow (on_event (VObj [(lit "event", VStr (lit "message"));
                                 (lit "payload", empty_delta_payload)]))
          initial_ui) = [].
Proof.
  destruct (C10_empty_delta_takes_priority empty_delta_payload) as [H1 H2].
  - vm_compute. reflexivity.
  - split; [vm_compute; reflexivity|]. split; [exact H1|].
    apply (H2 (VObj [(lit "event", VStr (lit "message"));
                     (lit "payload", empty_delta_payload)]) initial_ui);
      vm_compute; reflexivity.
Defined.

(** * Further properties of the consumer *)

Section LoopFacts.

Variable parse : jsstring -> result value.

Lemma apply_event_text (evt : value) (st : ui_state) :
  transcript (apply_event evt st) = transcript st ++ event_text evt.
Proof.
  unfold apply_event, event_text. cbn [transcript].
  rewrite extractTextFromPayload_refines.
  destruct (_ && _); [reflexivity|now rewrite app_nil_r].
Qed.

Lemma events_of_frames (st : ui_state) (frames : list jsstring) :
  events (process_frames parse st frames)
  = events st ++ frame_events parse frames.
Proof.
  revert st. induction frames as [|g frames IH]; intros st.
  - cbn. now rewrite app_nil_r.
  - unfold process_frames in *. cbn [fold_left frame_events flat_map].
    rewrite IH, process_frame_event.
    destruct (frame_event parse g) as [evt|]; [|reflexivity].
    unfold apply_event. cbn [events]. now rewrite <- app_assoc.
Qed.

Lemma transcript_of_frames (st : ui_state) (frames : list jsstring) :
  transcript (process_frames parse st frames)
  = transcript st ++ List.concat (map event_text (frame_events parse frames)).
Proof.
  revert st. induction frames as [|g frames IH]; intros st.
  - cbn. now rewrite app_nil_r.
  - unfold process_frames in *. cbn [fold_left frame_events flat_map].
    rewrite IH, process_frame_event.
    destruct (frame_event parse g) as [evt|]; [|reflexivity].
    rewrite apply_event_text. cbn [app map List.concat].
    now rewrite <- app_assoc.
Qed.

(** X3. No frame, whatever it holds, sets the error state or the
    streaming flag. *)
Theorem X3_frames_keep_error_and_flag (st : ui_state) (frames : list jsstring) :
  error (process_frames parse st frames) = error st
  /\ isStreaming (process_frames parse st frames) = isStreaming st.
Proof.
  revert st. induction frames as [|g frames IH]; intros st; [now split|].
  unfold process_frames in *. cbn [fold_left].
  destruct (IH (process_frame parse st g)) as [He Hs]. rewrite He, Hs.
  rewrite process_frame_event.
  destruct (frame_event parse g); split; reflexivity.
Qed.

Lemma read_chunk_whole (st : ui_state) (value : list Byte.byte) :
  read_chunk parse (st, new_reader) value
  = (process_frames parse st (removelast (split_nn (decoded [value]))),
     mkReader (fst (decode new_TextDecoder value))
       (last (split_nn (decoded [value])) [])).
Proof.
  unfold read_chunk, decoded, new_reader. cbn [decoder buffer List.concat].
  rewrite app_nil_r.
  destruct (decode new_TextDecoder value) as [dec text]. reflexivity.
Qed.

Lemma read_loop_whole (st : ui_state) (chunks : list (list Byte.byte)) :
  fst (read_loop parse st chunks)
  = process_frames parse st (removelast (split_nn (decoded chunks)))
  /\ buffer (snd (read_loop parse st chunks))
     = last (split_nn (decoded chunks)) [].
Proof.
  unfold read_loop. destruct chunks as [|c chunks]; [split; reflexivity|].
  rewrite read_chunks_concat, read_chunk_whole.
  unfold decoded. cbn [List.concat fst snd buffer]. rewrite app_nil_r.
  split; reflexivity.
Qed.

End LoopFacts.

(** C7. A complete frame that does not begin with [data:] after trimming,
    or whose payload [JSON.parse] rejects, carries no event and changes no
    state, and the frames around it are processed as if it had not been
    there: the event log grows by the events of the frames before and
    after it, in order, the transcript by their texts, and a [final] event
    after it that no other [final] event follows sets the final result. *)
Theorem C7_bad_frame_dropped
    (parse : jsstring -> result value) (st : ui_state)
    (before after : list jsstring) (chunk : jsstring) :
  startsWith (trim chunk) (lit "data:") = false
  \/ (exists e, parse (strip_data (trim chunk)) = Throw e) ->
  process_frame parse st chunk = st
  /\ process_frames parse st (before ++ chunk :: after)
     = process_frames parse st (before ++ after)
  /\ frame_event parse chunk = None
  /\ events (process_frames parse st (before ++ chunk :: after))
     = events st ++ frame_events parse before ++ frame_events parse after
  /\ transcript (process_frames parse st (before ++ chunk :: after))
     = transcript st
       ++ List.concat (map event_text (frame_events parse before))
       ++ List.concat (map event_text (frame_events parse after))
  /\ (forall (later rest : list jsstring) (next : jsstring) (evt : value),
        after = later ++ next :: rest ->
        frame_event parse next = Some evt ->
        is_event "final" evt = true ->
        (forall g e, In g rest -> frame_event parse g = Some e ->
                     is_event "final" e = false) ->
        finalJson (process_frames parse st (before ++ chunk :: after))
        = coalesce (own_prop evt (lit "data")) VNull).
Proof.
  intros H. apply frame_event_none in H.
  assert (Hdrop : process_frames parse st (before ++ chunk :: after)
                  = process_frames parse st (before ++ after)).
  { rewrite !process_frames_app. unfold process_frames at 1 3.
    cbn [fold_left]. now rewrite dropped_frame. }
  split; [now apply dropped_frame|]. split; [exact Hdrop|].
  split; [exact H|]. rewrite Hdrop. split; [|split].
  - rewrite events_of_frames. unfold frame_events. now rewrite flat_map_app.
  - rewrite transcript_of_frames. unfold frame_events.
    now rewrite flat_map_app, map_app, concat_app.
  - intros later rest next evt -> Hevt Hfinal Hrest.
    rewrite app_assoc, process_frames_app.
    unfold process_frames at 1. cbn [fold_left].
    change (fold_left (process_frame parse) rest ?s)
      with (process_frames parse s rest).
    rewrite finalJson_kept by exact Hrest.
    rewrite process_frame_event, Hevt.
    unfold apply_event. cbn [finalJson]. now rewrite Hfinal.
Qed.

Lemma C7_witness :
  let st :=
    process_frames JSON.parse initial_ui
      ([message_frame]
       ++ malformed_frame :: [second_message_frame; final_frame; end_line]) in
  process_frame JSON.parse initial_ui malformed_frame = initial_ui
  /\ events st
     = [from_json "{'event':'message','payload':{'delta':'Jane'}}";
        from_json "{'event':'message','payload':{'delta':' Doe'}}";
        from_json ("{'event':'final','data':" ++ complete_intake ++ "}")]
  /\ transcript st = lit "Jane Doe"
  /\ finalJson st = from_json complete_intake.
Proof.
  cbv zeta.
  destruct (C7_bad_frame_dropped JSON.parse initial_ui [message_frame]
              [second_message_frame; final_frame; end_line] malformed_frame)
    as (Hone & _ & _ & Hev & Htr & Hfin).
  - right. eexists. vm_compute. reflexivity.
  - split; [exact Hone|]. split; [|split].
    + rewrite Hev. vm_compute. reflexivity.
    + rewrite Htr. vm_compute. reflexivity.
    + rewrite (Hfin [second_message_frame] [end_line] final_frame
                 (from_json ("{'event':'final','data':" ++ complete_intake ++ "}"))).
      * vm_compute. reflexivity.
      * reflexivity.
      * vm_compute. reflexivity.
      * vm_compute. reflexivity.
      * intros g e [<-|[]] He. vm_compute in He. discriminate He.
Defined.

(** X1. The event log only grows: after a sequence of complete frames it
    is the log before, followed by the events of the frames that carry
    one, in the order of the frames. *)
Theorem X1_event_log_appends
    (parse : jsstring -> result value) (st : ui_state) (frames : list jsstring) :
  events (process_frames parse st frames)
  = events st ++ frame_events parse frames.
Proof. apply events_of_frames. Qed.

(** X2. The transcript only grows: after a sequence of complete frames it
    is the transcript before, followed by the texts extracted from the
    payloads of the [message] events, in the order of the frames. *)
Theorem X2_transcript_appends
    (parse : jsstring -> result value) (st : ui_state) (frames : list jsstring) :
  transcript (process_frames parse st frames)
  = transcript st ++ List.concat (map event_text (frame_events parse frames)).
Proof. apply transcript_of_frames. Qed.

(** X4. The read loop processes the complete frames of the decoded
    stream, in order, however the stream was cut into chunks; the text
    after the last blank line stays in the buffer and is never processed. *)
Theorem X4_read_loop_processes_complete_frames
    (parse : jsstring -> result value) (st : ui_state)
    (chunks : list (list Byte.byte)) :
  fst (read_loop parse st chunks)
  = process_frames parse st (removelast (split_nn (decoded chunks)))
  /\ buffer (snd (read_loop parse st chunks))
     = last (split_nn (decoded chunks)) [].
Proof. apply read_loop_whole. Qed.

Lemma split_nn_last_single (s : jsstring) :
  split_nn (last (split_nn s) []) = [last (split_nn s) []].
Proof.
  induction s as [|c|c d s IHs IHd] using jsstring_pair_ind.
  - reflexivity.
  - reflexivity.
  - rewrite split_nn_cons. destruct ((c =? 10) && (d =? 10)) eqn:Hnl.
    + destruct (split_nn s) as [|p l] eqn:Hs;
        [now destruct (split_nn_nonempty s)|exact IHs].
    + destruct (split_nn (d :: s)) as [|p [|q l]] eqn:Hs.
      * now destruct (split_nn_nonempty (d :: s)).
      * apply split_nn_single in Hs. subst p.
        cbn [cons_head last]. rewrite split_nn_cons, Hnl.
        cbn [last] in IHd. rewrite IHd. reflexivity.
      * exact IHd.
Qed.

(** X5. After every turn of the read loop the buffer holds no complete
    frame: splitting it again gives the buffer alone. *)
Theorem X5_buffer_never_holds_a_frame
    (parse : jsstring -> result value) (s : ui_state * reader)
    (value : list Byte.byte) :
  split_nn (buffer (snd (read_chunk parse s value)))
  = [buffer (snd (read_chunk parse s value))].
Proof.
  destruct s as [st rd]. unfold read_chunk.
  destruct (decode (decoder rd) value) as [dec text]. cbn [snd buffer].
  apply split_nn_last_single.
Qed.

(** ** The payload of a frame *)

Lemma trimStart_spaces (pre x : jsstring) :
  forallb is_js_space pre = true -> trimStart (pre ++ x) = trimStart x.
Proof.
  induction pre as [|c pre IH]; cbn [app forallb trimStart]; [reflexivity|].
  intros H. apply andb_true_iff in H as [Hc Hp]. now rewrite Hc, IH.
Qed.

Lemma trimStart_stops (x : jsstring) :
  is_js_space (hd 0 x) = false -> trimStart x = x.
Proof. destruct x as [|c x]; cbn; [reflexivity|]. now intros ->. Qed.

Lemma forallb_rev {A} (f : A -> bool) (l : list A) :
  forallb f (rev l) = forallb f l.
Proof.
  induction l as [|a l IH]; [reflexivity|].
  cbn [rev forallb]. rewrite forallb_app, IH. cbn. rewrite andb_true_r.
  apply andb_comm.
Qed.

Lemma hd_rev_last (x : jsstring) : hd 0 (rev x) = last x 0.
Proof.
  induction x as [|c x _] using rev_ind; [reflexivity|].
  now rewrite rev_unit, last_last.
Qed.

(** What [trim] leaves of a text wrapped in white space. *)
Lemma trim_core (pre x post : jsstring) :
  forallb is_js_space pre = true ->
  forallb is_js_space post = true ->
  is_js_space (hd 0 x) = false ->
  is_js_space (last x 0) = false ->
  trim (pre ++ x ++ post) = x.
Proof.
  intros Hpre Hpost Hh Hl. unfold trim, trimEnd.
  rewrite trimStart_spaces by exact Hpre.
  destruct x as [|c x].
  - cbn [app]. rewrite <- (app_nil_r post) at 1.
    now rewrite trimStart_spaces.
  - rewrite (trimStart_stops ((c :: x) ++ post)) by exact Hh.
    rewrite rev_app_distr, trimStart_spaces by now rewrite forallb_rev.
    rewrite trimStart_stops by now rewrite hd_rev_last.
    apply rev_involutive.
Qed.

(** X6. The payload of a frame is recovered whether the colon of [data:]
    is followed by one space or by none, and whatever white space
    surrounds the frame: what is parsed is the text between, when it
    begins and ends with other characters than white space. *)
Theorem X6_payload_recovered (pre post json : jsstring) :
  forallb is_js_space pre = true ->
  forallb is_js_space post = true ->
  is_js_space (hd 0 json) = false ->
  is_js_space (last json 0) = false ->
  let tight := pre ++ (lit "data:" ++ json) ++ post in
  let spaced := pre ++ (lit "data: " ++ json) ++ post in
  startsWith (trim tight) (lit "data:") = true
  /\ strip_data (trim tight) = json
  /\ startsWith (trim spaced) (lit "data:") = true
  /\ strip_data (trim spaced) = json.
Proof.
  intros Hpre Hpost Hh Hl. cbv zeta.
  destruct json as [|c json].
  - cbn [app]. rewrite !app_nil_r.
    change (lit "data: ") with (lit "data:" ++ [32]).
    rewrite <- (app_assoc (lit "data:") [32] post).
    rewrite !trim_core; try assumption; try reflexivity.
    repeat split; reflexivity.
  - assert (Hlast : forall p, last (p ++ c :: json) 0 = last (c :: json) 0)
      by (intros p; now apply last_app_nonempty).
    rewrite !trim_core; try assumption; try (now rewrite Hlast);
      try reflexivity.
    repeat split; try reflexivity.
    unfold strip_data. cbn in Hh |- *. now rewrite Hh.
Qed.

(** * Further properties of the sessions *)

Section SessionFacts.

Variable parse : jsstring -> result value.

(** X7. A session that was not cancelled and whose [fetch] or [read]
    fails ends with the message of the failure in the error state, or
    with [Stream error] when the message is empty; what was received
    stays, the stored controller is cleared and the streaming flag is
    lowered. *)
Theorem X7_failed_read_sets_error (c : component) (id : nat) (e : exn) :
  is_active id c = true ->
  is_aborted id c = false ->
  str_eqb (exn_name e) (lit "AbortError") = false ->
  let c' := resume parse c id (Rejected e) in
  error (ui c')
    = Some (match exn_message e with [] => lit "Stream error" | m => m end)
  /\ (transcript (ui c'), events (ui c'), finalJson (ui c'))
     = (transcript (ui c), events (ui c), finalJson (ui c))
  /\ is_active id c' = false
  /\ controllerRef c' = None
  /\ isStreaming (ui c') = false.
Proof.
  intros Hact Hab Hname. cbv zeta.
  assert (E : resume parse c id (Rejected e)
              = on_finally id (with_ui (on_catch e (ui c)) c)).
  { unfold is_active, resume in *.
    destruct (find_session id (sessions c)) as [ph|]; [|discriminate].
    rewrite Hab. now destruct ph. }
  rewrite E. unfold on_catch, is_active. rewrite Hname.
  cbn [negb on_finally with_ui ui sessions controllerRef setError setIsStreaming
       error transcript events finalJson isStreaming].
  rewrite find_session_drop. repeat split; reflexivity.
Qed.

(** X8. A response that is not ok, or has no body, ends the session with
    [Stream failed with status] and the status code in the error state;
    no chunk is read and what the state held stays. *)
Theorem X8_failed_response_sets_error
    (c : component) (id : nat) (ok body : bool) (status : N) :
  find_session id (sessions c) = Some Fetching ->
  is_aborted id c = false ->
  ok && body = false ->
  let c' := resume parse c id (Response ok body status) in
  error (ui c') = Some (lit "Stream failed with status " ++ N_digits status)
  /\ (transcript (ui c'), events (ui c'), finalJson (ui c'))
     = (transcript (ui c), events (ui c), finalJson (ui c))
  /\ is_active id c' = false
  /\ isStreaming (ui c') = false.
Proof.
  intros Hs Hab Hbad. cbv zeta.
  assert (Hb : negb ok || negb body = true)
    by (destruct ok, body; auto; discriminate).
  unfold resume, is_active. rewrite Hs, Hab, Hb. unfold on_catch.
  cbn [negb on_finally with_ui ui sessions controllerRef setError setIsStreaming
       error transcript events finalJson isStreaming exn_name exn_message
       str_eqb].
  change (str_eqb (lit "Error") (lit "AbortError")) with false.
  cbn [negb on_finally with_ui ui sessions controllerRef setError setIsStreaming
       error transcript events finalJson isStreaming].
  rewrite find_session_drop. repeat split; reflexivity.
Qed.

End SessionFacts.

(** * Further properties of the relay *)

(** Induction on values, through the items of arrays and the fields of
    objects. *)
Lemma value_nested_ind (P : value -> Prop) :
  P VUndef -> P VNull -> (forall b, P (VBool b)) -> (forall x, P (VNum x)) ->
  (forall s, P (VStr s)) ->
  (forall items, Forall P items -> P (VArr items)) ->
  (forall fs, Forall (fun kv => P (snd kv)) fs -> P (VObj fs)) ->
  forall v, P v.
Proof.
  intros HU HN HB HX HS HA HO. fix IH 1. intros [| |b|x|s|items|fs].
  - exact HU.
  - exact HN.
  - apply HB.
  - apply HX.
  - apply HS.
  - apply HA. induction items as [|v items IHitems]; constructor;
      [apply IH|exact IHitems].
  - apply HO. induction fs as [|[k v] fs IHfs]; constructor;
      [apply IH|exact IHfs].
Qed.

Lemma no_line_feed_app (a b : jsstring) :
  no_line_feed a -> no_line_feed b -> no_line_feed (a ++ b).
Proof. intros Ha Hb. apply Forall_app. now split. Qed.

Lemma no_line_feed_above (s : jsstring) :
  Forall (fun c => 43 <= c) s -> no_line_feed s.
Proof. apply Forall_impl. intros c H. lia. Qed.

Lemma uint_units_digits (u : Decimal.uint) :
  Forall (fun c => 43 <= c) (uint_units u).
Proof. induction u; cbn [uint_units]; constructor; auto; lia. Qed.

Lemma dropZeros_cons (c : N) (s : jsstring) :
  dropZeros (c :: s) = if c =? 48 then dropZeros s else c :: s.
Proof.
  destruct c as [|p]; [reflexivity|].
  do 6 (destruct p as [p|p|]; try reflexivity).
Qed.

Lemma dropZeros_above (s : jsstring) :
  Forall (fun c => 43 <= c) s -> Forall (fun c => 43 <= c) (dropZeros s).
Proof.
  induction 1 as [|c s Hc Hs IH]; [constructor|].
  rewrite dropZeros_cons. destruct (c =? 48); [exact IH|now constructor].
Qed.

Lemma firstn_above (n : nat) (s : jsstring) :
  Forall (fun c => 43 <= c) s -> Forall (fun c => 43 <= c) (firstn n s).
Proof.
  intros H. revert n. induction H; intros [|n]; cbn; constructor; auto.
Qed.

Lemma skipn_above (n : nat) (s : jsstring) :
  Forall (fun c => 43 <= c) s -> Forall (fun c => 43 <= c) (skipn n s).
Proof.
  intros H. revert n. induction H; intros [|n]; cbn; auto.
Qed.

Lemma repeat_zero_above (n : nat) : Forall (fun c => 43 <= c) (repeat 48 n).
Proof. induction n; cbn; constructor; auto; lia. Qed.

Lemma above_checked (s : jsstring) :
  forallb (fun c => 43 <=? c) s = true -> Forall (fun c => 43 <= c) s.
Proof.
  intros H. apply Forall_forall. intros c Hin.
  rewrite forallb_forall in H. apply N.leb_le. now apply H.
Qed.

Lemma no_line_feed_checked (s : jsstring) :
  forallb (fun c => negb (c =? 10)) s = true -> no_line_feed s.
Proof.
  intros H. apply Forall_forall. intros c Hin.
  rewrite forallb_forall in H. specialize (H c Hin).
  now apply negb_true_iff, N.eqb_neq in H.
Qed.

(** The rendering of a number holds digits, a sign, a dot and an [e]. *)
Lemma number_to_string_above (x : number) :
  Forall (fun c => 43 <= c) (number_to_string x).
Proof.
  unfold number_to_string.
  destruct (number_is_zero x); [now apply above_checked|].
  set (all := N_digits (num_mant x)).
  assert (Hall : Forall (fun c => 43 <= c) all) by apply uint_units_digits.
  assert (Hs : Forall (fun c => 43 <= c) (rev (dropZeros (rev all)))).
  { apply Forall_rev, dropZeros_above, Forall_rev, Hall. }
  set (s := rev (dropZeros (rev all))) in *.
  assert (Hexpo : forall e : Z,
    Forall (fun c => 43 <= c)
      (lit "e" ++ (if (e <? 0)%Z then lit "-" else lit "+")
       ++ N_digits (Z.abs_N e))).
  { intros e. apply Forall_app. split; [now apply above_checked|].
    apply Forall_app. split; [|apply uint_units_digits].
    destruct (e <? 0)%Z; now apply above_checked. }
  apply Forall_app. split.
  { destruct (num_neg x); [now apply above_checked|constructor]. }
  destruct (_ && _).
  { apply Forall_app. split; [exact Hs|apply repeat_zero_above]. }
  destruct (_ && _).
  { apply Forall_app. split; [now apply firstn_above|].
    apply Forall_app. split; [now apply above_checked|now apply skipn_above]. }
  destruct (_ && _).
  { apply Forall_app. split; [now apply above_checked|].
    apply Forall_app. split; [apply repeat_zero_above|exact Hs]. }
  destruct s as [|d [|d' rest]].
  - constructor.
  - apply Forall_app. split; [exact Hs|apply Hexpo].
  - inversion Hs as [|? ? Hd Hrest]; subst.
    apply Forall_app. split; [now constructor|].
    apply Forall_app. split; [now apply above_checked|].
    apply Forall_app. split; [exact Hrest|apply Hexpo].
Qed.

Lemma hex_digit_above (n : N) : 43 <= JSON.hex_digit n.
Proof. unfold JSON.hex_digit. destruct (n <? 10); lia. Qed.

Lemma unicode_escape_no_line_feed (c : N) : no_line_feed (JSON.unicode_escape c).
Proof.
  apply no_line_feed_above. unfold JSON.unicode_escape.
  apply Forall_app. split; [now apply above_checked|].
  repeat (apply Forall_cons; [apply hex_digit_above|]). constructor.
Qed.

Lemma no_line_feed_cons (c : N) (s : jsstring) :
  (c =? 10) = false -> no_line_feed s -> no_line_feed (c :: s).
Proof. intros Hc Hs. constructor; [now apply N.eqb_neq|exact Hs]. Qed.

(** A line feed inside a string is written as its escape. *)
Lemma quote_chars_no_line_feed (s : jsstring) (paired : bool) :
  no_line_feed (JSON.quote_chars paired s).
Proof.
  revert paired. induction s as [|c s IH]; intros paired; [constructor|].
  cbn [JSON.quote_chars].
  destruct (c =? 8);
    [apply no_line_feed_app; [now apply no_line_feed_checked|apply IH]|].
  destruct (c =? 9);
    [apply no_line_feed_app; [now apply no_line_feed_checked|apply IH]|].
  destruct (c =? 10) eqn:Hlf;
    [apply no_line_feed_app; [now apply no_line_feed_checked|apply IH]|].
  destruct (c =? 12);
    [apply no_line_feed_app; [now apply no_line_feed_checked|apply IH]|].
  destruct (c =? 13);
    [apply no_line_feed_app; [now apply no_line_feed_checked|apply IH]|].
  destruct (c =? 34);
    [apply no_line_feed_app; [now apply no_line_feed_checked|apply IH]|].
  destruct (c =? 92);
    [apply no_line_feed_app; [now apply no_line_feed_checked|apply IH]|].
  destruct (c <? 32);
    [apply no_line_feed_app; [apply unicode_escape_no_line_feed|apply IH]|].
  destruct (JSON.is_high_surrogate c).
  { destruct s as [|d s']; [apply unicode_escape_no_line_feed|].
    destruct (JSON.is_low_surrogate d).
    - apply no_line_feed_cons; [exact Hlf|apply IH].
    - apply no_line_feed_app; [apply unicode_escape_no_line_feed|apply IH]. }
  destruct (JSON.is_low_surrogate c).
  { apply no_line_feed_app; [|apply IH].
    destruct paired; [|apply unicode_escape_no_line_feed].
    apply no_line_feed_cons; [exact Hlf|constructor]. }
  apply no_line_feed_cons; [exact Hlf|apply IH].
Qed.

Lemma quote_no_line_feed (s : jsstring) : no_line_feed (JSON.quote s).
Proof.
  unfold JSON.quote. apply no_line_feed_app; [now apply no_line_feed_checked|].
  apply no_line_feed_app; [apply quote_chars_no_line_feed|].
  now apply no_line_feed_checked.
Qed.

Lemma join_comma_no_line_feed (parts : list jsstring) :
  Forall no_line_feed parts -> no_line_feed (JSON.join_comma parts).
Proof.
  induction 1 as [|p parts Hp Hparts IH]; [constructor|].
  cbn [JSON.join_comma]. destruct parts as [|q parts]; [exact Hp|].
  apply no_line_feed_app; [exact Hp|].
  apply no_line_feed_app; [now apply no_line_feed_checked|exact IH].
Qed.

Lemma serialize_line_feed_free (v : value) (text : jsstring) :
  JSON.serialize v = Some text -> no_line_feed text.
Proof.
  revert text. induction v as [| |b|x|s|items IH|fs IH] using value_nested_ind;
    intros text; cbn [JSON.serialize].
  - discriminate.
  - intros [= <-]. now apply no_line_feed_checked.
  - destruct b; intros [= <-]; now apply no_line_feed_checked.
  - intros [= <-]. apply no_line_feed_above, number_to_string_above.
  - intros [= <-]. apply quote_no_line_feed.
  - intros [= <-]. cbn [app].
    apply no_line_feed_cons; [reflexivity|].
    apply no_line_feed_app; [|now apply no_line_feed_checked].
    apply join_comma_no_line_feed.
    induction IH as [|v items Hv _ IHitems]; constructor; [|exact IHitems].
    destruct (JSON.serialize v) as [t|]; [now apply Hv|].
    now apply no_line_feed_checked.
  - intros [= <-]. cbn [app].
    apply no_line_feed_cons; [reflexivity|].
    apply no_line_feed_app; [|now apply no_line_feed_checked].
    apply join_comma_no_line_feed.
    induction IH as [|[k v] fs Hv _ IHfs]; [constructor|].
    cbn [snd] in Hv. destruct (JSON.serialize v) as [t|]; [|exact IHfs].
    constructor; [|exact IHfs].
    apply no_line_feed_cons; [reflexivity|].
    apply no_line_feed_app.
    + apply no_line_feed_app;
        [apply quote_chars_no_line_feed|now apply no_line_feed_checked].
    + apply no_line_feed_cons; [reflexivity|now apply Hv].
Qed.

(** X9. The text that [JSON.stringify] gives to a frame never holds a
    line feed, so that no serialized event can end its frame early. *)
Theorem X9_serialized_event_has_no_line_feed (v : value) :
  no_line_feed (interpolate (JSON.serialize v)).
Proof.
  destruct (JSON.serialize v) as [text|] eqn:E; cbn [interpolate].
  - now apply (serialize_line_feed_free v).
  - now apply no_line_feed_checked.
Qed.

Lemma frame_json_shape (ev : upstream_event) :
  Forall (fun j => no_line_feed j /\ hd 0 j = 123 /\ last j 0 = 125)
    (frame_json ev).
Proof.
  assert (H : forall fs,
    let j := interpolate (JSON.serialize (VObj fs)) in
    no_line_feed j /\ hd 0 j = 123 /\ last j 0 = 125).
  { intros fs. cbv zeta. split.
    - destruct (JSON.serialize (VObj fs)) as [text|] eqn:E; cbn [interpolate].
      + now apply (serialize_line_feed_free (VObj fs)).
      + now apply no_line_feed_checked.
    - cbn [JSON.serialize interpolate app hd]. split; [reflexivity|].
      now rewrite app_comm_cons, last_last. }
  destruct ev as [msg|finalMsg| |err]; cbn [frame_json]; try constructor.
  - apply H.
  - constructor.
  - destruct (extractJsonFromResponse _ _ finalMsg); constructor;
      [apply H|constructor].
Qed.

Lemma sent_json_shape (evs : list upstream_event) :
  Forall (fun j => no_line_feed j /\ hd 0 j = 123 /\ last j 0 = 125)
    (sent_json evs).
Proof.
  induction evs as [|ev evs IH]; [constructor|].
  cbn [sent_json]. destruct (is_closing ev); [constructor|].
  apply Forall_app. split; [apply frame_json_shape|exact IH].
Qed.

Lemma console_log_prints (prefix : string) (v : value) :
  to_string_throws v = false -> console_log_concat prefix v = Ok tt.
Proof. unfold console_log_concat. now intros ->. Qed.

Lemma console_log_throws (prefix : string) (v : value) :
  to_string_throws v = true ->
  console_log_concat prefix v
  = Throw (TypeError "Cannot convert object to primitive value").
Proof. unfold console_log_concat. now intros ->. Qed.

Lemma relay_ended (res : sse_response) (evs : list upstream_event) :
  sse_ended res = true ->
  forallb loggable evs = true ->
  exists res', relay JSON.parse JSON.stringify res evs = Ok res'
               /\ sse_written res' = sse_written res
               /\ sse_ended res' = true.
Proof.
  revert res. induction evs as [|ev evs IH]; intros res Hend Hlog.
  - exists res. auto.
  - cbn [forallb] in Hlog. apply andb_true_iff in Hlog as [Hev Hlog].
    assert (Hw : forall chunk, res_write chunk res = res)
      by (intros chunk; unfold res_write; now rewrite Hend).
    assert (He : res_end res = res)
      by (destruct res; cbn in *; now subst).
    cbn [relay].
    assert (Hd : deliver JSON.parse JSON.stringify res ev = Ok res).
    { destruct ev as [msg|finalMsg| |err]; cbn [deliver loggable] in *.
      - apply negb_true_iff in Hev.
        unfold on_message, JSON.stringify.
        rewrite (console_log_prints _ _ Hev). cbn [bind]. now rewrite Hw.
      - apply negb_true_iff in Hev.
        unfold on_finalMessage, JSON.stringify.
        rewrite extractJsonFromResponse_refines.
        rewrite (console_log_prints _ _ Hev). cbn [bind try_catch].
        now rewrite Hw.
      - unfold on_end. now rewrite Hw, He.
      - unfold on_error. now rewrite Hw, He. }
    rewrite Hd. cbn [bind]. now apply IH.
Qed.

Lemma concat_snoc (l : list jsstring) (x : jsstring) :
  List.concat (l ++ [x]) = List.concat l ++ x.
Proof. now rewrite concat_app; cbn; rewrite app_nil_r. Qed.

Lemma relay_wire (res : sse_response) (evs : list upstream_event) :
  sse_ended res = false ->
  forallb loggable evs = true ->
  exists res', relay JSON.parse JSON.stringify res evs = Ok res'
               /\ List.concat (sse_written res')
                  = List.concat (sse_written res) ++ wire_text evs
               /\ sse_ended res' = existsb is_closing evs.
Proof.
  revert res. induction evs as [|ev evs IH]; intros res Hlive Hlog.
  - exists res. unfold wire_text. cbn. now rewrite app_nil_r.
  - cbn [forallb] in Hlog. apply andb_true_iff in Hlog as [Hev Hlog].
    assert (Hw : forall chunk,
      res_write chunk res
      = mkSse (sse_status res) (sse_headers res) (sse_json res)
          (sse_written res ++ [chunk]) false)
      by (intros chunk; unfold res_write; now rewrite Hlive).
    cbn [relay existsb].
    destruct ev as [msg|finalMsg| |err];
      cbn [deliver is_closing orb loggable] in *.
    + apply negb_true_iff in Hev.
      unfold on_message, JSON.stringify.
      rewrite (console_log_prints _ _ Hev). cbn [bind]. rewrite Hw.
      destruct (IH (mkSse (sse_status res) (sse_headers res) (sse_json res)
                      (sse_written res ++
                         [data_frame (interpolate
                            (JSON.serialize (envelope_message msg)))]) false)
                  eq_refl Hlog) as (res' & Hr & Hc & He).
      exists res'. split; [exact Hr|]. split; [|exact He].
      rewrite Hc. cbn [sse_written]. rewrite concat_snoc.
      unfold wire_text. cbn [sent_json is_closing frame_json app map
                               List.concat closing_line].
      now rewrite <- !app_assoc.
    + apply negb_true_iff in Hev.
      unfold on_finalMessage, JSON.stringify.
      rewrite extractJsonFromResponse_refines.
      rewrite (console_log_prints _ _ Hev). cbn [bind try_catch]. rewrite Hw.
      destruct (IH (mkSse (sse_status res) (sse_headers res) (sse_json res)
                      (sse_written res ++
                         [data_frame (interpolate
                            (JSON.serialize
                               (envelope_final
                                  (extract_json_spec JSON.parse JSON.stringify
                                     finalMsg))))]) false)
                  eq_refl Hlog) as (res' & Hr & Hc & He).
      exists res'. split; [exact Hr|]. split; [|exact He].
      rewrite Hc. cbn [sse_written]. rewrite concat_snoc.
      unfold wire_text. cbn [sent_json is_closing frame_json closing_line].
      rewrite extractJsonFromResponse_refines.
      cbn [app map List.concat]. now rewrite <- !app_assoc.
    + unfold on_end. rewrite Hw.
      destruct (relay_ended
                  (res_end (mkSse (sse_status res) (sse_headers res)
                              (sse_json res) (sse_written res ++ [end_frame])
                              false)) evs eq_refl Hlog) as (res' & Hr & Hc & He).
      exists res'. split; [exact Hr|]. split; [|exact He].
      rewrite Hc. cbn [res_end sse_written]. now rewrite concat_snoc.
    + unfold on_error. rewrite Hw.
      destruct (relay_ended
                  (res_end (mkSse (sse_status res) (sse_headers res)
                              (sse_json res) (sse_written res ++ [error_frame])
                              false)) evs eq_refl Hlog) as (res' & Hr & Hc & He).
      exists res'. split; [exact Hr|]. split; [|exact He].
      rewrite Hc. cbn [res_end sse_written]. now rewrite concat_snoc.
Qed.

(** X10. On a run of the upstream session whose payloads [console.log]
    can print, on a response that has not ended, the listeners throw
    nothing and write one data frame for each message and for the final
    message, in the order of the events, then the line of the first [end]
    or [error]; nothing is written after that line, and the response has
    ended exactly when the run holds such an event. A payload that cannot
    be converted to a string for [console.log] is not sent: the listener of
    a message throws before its write, and the listener of the final
    message leaves the response as it was. *)
Theorem X10_relay_writes_frames_in_order
    (res : sse_response) (evs : list upstream_event) :
  sse_ended res = false ->
  forallb loggable evs = true ->
  (exists res',
     relay JSON.parse JSON.stringify res evs = Ok res'
     /\ List.concat (sse_written res')
        = List.concat (sse_written res) ++ wire_text evs
     /\ sse_ended res' = existsb is_closing evs)
  /\ (forall payload rest,
        to_string_throws payload = true ->
        on_message JSON.stringify payload res
        = Throw (TypeError "Cannot convert object to primitive value")
        /\ relay JSON.parse JSON.stringify res (OnMessage payload :: rest)
           = Throw (TypeError "Cannot convert object to primitive value")
        /\ on_finalMessage JSON.parse JSON.stringify payload res = Ok res
        /\ relay JSON.parse JSON.stringify res (OnFinalMessage payload :: rest)
           = relay JSON.parse JSON.stringify res rest).
Proof.
  intros Hlive Hlog. split; [now apply relay_wire|].
  intros payload rest Hthrows.
  assert (Hm : on_message JSON.stringify payload res
               = Throw (TypeError "Cannot convert object to primitive value")).
  { unfold on_message. now rewrite (console_log_throws _ _ Hthrows). }
  assert (Hf : on_finalMessage JSON.parse JSON.stringify payload res = Ok res).
  { unfold on_finalMessage. rewrite extractJsonFromResponse_refines.
    now rewrite (console_log_throws _ _ Hthrows). }
  repeat split.
  - exact Hm.
  - cbn [relay deliver]. now rewrite Hm.
  - exact Hf.
  - cbn [relay deliver]. now rewrite Hf.
Qed.

Lemma split_nn_frame (a rest : jsstring) :
  no_line_feed a -> split_nn (a ++ 10 :: 10 :: rest) = a :: split_nn rest.
Proof.
  induction 1 as [|c a Hc Ha IH]; [reflexivity|].
  cbn [app]. destruct (a ++ 10 :: 10 :: rest) as [|d tail] eqn:E.
  - now destruct a.
  - rewrite split_nn_cons, <- E.
    apply N.eqb_neq in Hc. rewrite Hc. cbn [andb]. rewrite E in *.
    now rewrite IH.
Qed.

Lemma closing_line_single (evs : list upstream_event) :
  split_nn (closing_line evs) = [closing_line evs].
Proof.
  induction evs as [|[msg|finalMsg| |err] evs IH]; try exact IH; reflexivity.
Qed.

Lemma wire_frames (evs : list upstream_event) :
  split_nn (wire_text evs)
  = map (app (lit "data: ")) (sent_json evs) ++ [closing_line evs].
Proof.
  unfold wire_text. generalize (closing_line_single evs).
  generalize (closing_line evs) as tail.
  induction (sent_json_shape evs) as [|j js [Hj _] _ IH]; intros tail Ht.
  - exact Ht.
  - cbn [map List.concat app]. unfold data_frame.
    rewrite <- !app_assoc. rewrite (app_assoc (lit "data: ") j).
    cbn [app]. rewrite split_nn_frame.
    + now rewrite IH.
    + apply no_line_feed_app; [now apply no_line_feed_checked|exact Hj].
Qed.

(** X11. The consumer's split of the text on the wire gives back the
    frames as the relay wrote them, one piece for each data frame, and the
    closing line as the last piece. *)
Theorem X11_wire_splits_into_the_frames_written (evs : list upstream_event) :
  split_nn (wire_text evs)
  = map (app (lit "data: ")) (sent_json evs) ++ [closing_line evs].
Proof. apply wire_frames. Qed.

Lemma frame_event_data (parse : jsstring -> result value) (j : jsstring) :
  hd 0 j = 123 -> last j 0 = 125 ->
  frame_event parse (lit "data: " ++ j) = parsed parse j.
Proof.
  intros Hh Hl.
  assert (Hne : j <> []) by (intros ->; discriminate).
  assert (Ht : trim (lit "data: " ++ j) = lit "data: " ++ j).
  { rewrite <- (app_nil_r (lit "data: " ++ j)) at 1.
    apply (trim_core [] (lit "data: " ++ j) []); try reflexivity.
    rewrite last_app_nonempty by exact Hne. now rewrite Hl. }
  unfold frame_event, parsed. rewrite Ht. reflexivity.
Qed.

Lemma frame_events_data (parse : jsstring -> result value) (js : list jsstring) :
  Forall (fun j => no_line_feed j /\ hd 0 j = 123 /\ last j 0 = 125) js ->
  frame_events parse (map (app (lit "data: ")) js) = parsed_events parse js.
Proof.
  induction 1 as [|j js (_ & Hh & Hl) _ IH]; [reflexivity|].
  cbn [map frame_events parsed_events flat_map].
  rewrite (frame_event_data parse j Hh Hl). unfold parsed.
  fold (frame_events parse (map (app (lit "data: ")) js)).
  fold (parsed_events parse js). rewrite IH.
  now destruct (parse j).
Qed.

(** X12. From the relay to the consumer: when the chunks received decode
    to the text the relay wrote, the event log grows by the events parsed
    from the JSON texts of the relay, in the order of the upstream events,
    the transcript by their texts, and the closing line is left in the
    buffer without being processed. *)
Theorem X12_consumer_receives_what_the_relay_wrote
    (parse : jsstring -> result value) (st : ui_state)
    (chunks : list (list Byte.byte)) (evs : list upstream_event) :
  decoded chunks = wire_text evs ->
  events (fst (read_loop parse st chunks))
    = events st ++ parsed_events parse (sent_json evs)
  /\ transcript (fst (read_loop parse st chunks))
    = transcript st
      ++ List.concat (map event_text (parsed_events parse (sent_json evs)))
  /\ buffer (snd (read_loop parse st chunks)) = closing_line evs.
Proof.
  intros Hwire.
  destruct (read_loop_whole parse st chunks) as [Hui Hbuf].
  rewrite Hui, Hbuf, Hwire, wire_frames, removelast_last, last_last.
  rewrite events_of_frames, transcript_of_frames.
  rewrite (frame_events_data parse _ (sent_json_shape evs)).
  repeat split; reflexivity.
Qed.

(** * Further properties of the endpoints *)

Section EndpointFacts.

Variable parse : jsstring -> result value.
Variable stringify : value -> result (option jsstring).

Lemma get_userMessage (body : value) :
  get (if truthy body then body else VObj []) "userMessage"
  = Ok (own_prop (if truthy body then body else VObj []) (lit "userMessage")).
Proof.
  apply get_truthy. destruct (truthy body) eqn:E; [exact E|reflexivity].
Qed.

(** The two handlers on a parsed body: each answers 400 exactly when the
    body carries no string that is not empty under [userMessage], and then
    the upstream call is not made. *)
Lemma handlers_reject_the_same_bodies
    (create create' : jsstring -> result value)
    (stream stream' : jsstring -> result unit) (body : value) :
  (status_code (post_api_chat parse stringify create body) = 400
   <-> user_message body = None)
  /\ (sse_status (fst (post_api_chat_stream stream body)) = Some 400
      <-> user_message body = None)
  /\ (user_message body = None ->
      post_api_chat parse stringify create body
      = post_api_chat parse stringify create' body
      /\ post_api_chat_stream stream body = post_api_chat_stream stream' body
      /\ snd (post_api_chat_stream stream body) = false
      /\ sse_headers (fst (post_api_chat_stream stream body)) = []).
Proof.
  unfold post_api_chat, chat_try, post_api_chat_stream, stream_try, user_message.
  rewrite !get_userMessage. cbn [bind].
  destruct (own_prop _ (lit "userMessage")) as [| |b|x|[|c m]|items|fs];
    try (repeat split; intros; try reflexivity; discriminate).
  split; [|split].
  - destruct (create (c :: m)) as [r|e]; cbn [bind].
    + rewrite extractJsonFromResponse_refines. cbn. split; discriminate.
    + cbn. split; discriminate.
  - destruct (stream (c :: m)); cbn; split; discriminate.
  - discriminate.
Qed.


End EndpointFacts.

(** X13. Behind the body parser the two endpoints reject the same
    requests: each answers 400 exactly when the parser accepts the text of
    the body and the parsed body carries no string that is not empty under
    [userMessage], and then the upstream call is not made, whatever it
    would have given, no header of the stream is set and no session is
    opened. A text that the parser refuses (over the limit, not starting
    with a brace or a bracket, or not JSON) reaches no handler: both
    endpoints answer 500 with the message of the error. *)
Theorem X13_endpoints_reject_the_same_bodies
    (create create' : jsstring -> result value)
    (stream stream' : jsstring -> result unit) (text : jsstring) :
  (status_code (api_chat create text) = 400
   <-> exists body, express_json text = Ok body /\ user_message body = None)
  /\ (sse_status (fst (api_chat_stream stream text)) = Some 400
      <-> exists body, express_json text = Ok body /\ user_message body = None)
  /\ ((exists body, express_json text = Ok body /\ user_message body = None) ->
      api_chat create text = api_chat create' text
      /\ api_chat_stream stream text = api_chat_stream stream' text
      /\ snd (api_chat_stream stream text) = false
      /\ sse_headers (fst (api_chat_stream stream text)) = [])
  /\ (forall e, express_json text = Throw e ->
      api_chat create text = mkResponse 500 (error_body e)
      /\ api_chat_stream stream text
         = (mkSse (Some 500) [] (Some (error_body e)) [] true, false)).
Proof.
  unfold api_chat, api_chat_stream.
  destruct (express_json text) as [body|e].
  - destruct (handlers_reject_the_same_bodies JSON.parse JSON.stringify
                create create' stream stream' body) as (H1 & H2 & H3).
    assert (Hiff : (exists b, Ok body = Ok b /\ user_message b = None)
                   <-> user_message body = None).
    { split.
      - intros (b & Hb & H). injection Hb as <-. exact H.
      - intros H. exists body. now split. }
    split; [tauto|]. split; [tauto|]. split; [tauto|].
    intros e He. discriminate He.
  - assert (Hno : ~ exists b, @Throw value e = Ok b /\ user_message b = None)
      by (intros (b & Hb & _); discriminate Hb).
    split; [split; [cbn; discriminate|intros H; now destruct Hno]|].
    split; [split; [cbn; discriminate|intros H; now destruct Hno]|].
    split; [intros H; now destruct Hno|].
    intros e' He. injection He as <-. now split.
Qed.

(** Bodies that the parser refuses, and bodies that the handlers reject. *)
Example refused_and_rejected_bodies :
  map (fun text => status_code (api_chat (fun _ => Ok VNull) (jtext text)))
    ["null"; "'abc'"; "5"; "{'userMessage':"; "";
     "{}"; "[]"; "{'userMessage':''}"; "{'userMessage':5}";
     " {'userMessage':'I am Jane Doe'}"]%string
  = [500; 500; 500; 500; 400; 400; 400; 400; 400; 200].
Proof. vm_compute. reflexivity. Qed.

(** * Properties of the form *)

Lemma trimStart_nil_iff (s : jsstring) :
  trimStart s = [] <-> forallb is_js_space s = true.
Proof.
  induction s as [|c s IH]; cbn [trimStart forallb]; [tauto|].
  destruct (is_js_space c); cbn [andb]; [exact IH|].
  split; discriminate.
Qed.

Lemma trimStart_head (s : jsstring) : is_js_space (hd 0 (trimStart s)) = false.
Proof.
  induction s as [|c s IH]; [reflexivity|].
  cbn [trimStart]. destruct (is_js_space c) eqn:E; [exact IH|exact E].
Qed.

(** [trim] leaves nothing of white space, and only of white space. *)
Lemma trim_nil_iff (s : jsstring) :
  trim s = [] <-> forallb is_js_space s = true.
Proof.
  unfold trim, trimEnd. split.
  - intros H. apply (f_equal (@rev N)) in H. rewrite rev_involutive in H.
    cbn [rev] in H. apply trimStart_nil_iff in H. rewrite forallb_rev in H.
    pose proof (trimStart_head s) as Hh.
    destruct (trimStart s) as [|c t] eqn:E.
    + now apply trimStart_nil_iff.
    + cbn [hd forallb] in *. rewrite Hh in H. discriminate.
  - intros H. apply trimStart_nil_iff in H. now rewrite H.
Qed.

Module WizardFacts.
Import Wizard.

(** X15. A full name or a nationality is accepted exactly when it holds a
    character that is not white space. *)
Theorem X15_blank_answers_rejected (value : jsstring) :
  (validate full_name value = None <-> forallb is_js_space value = false)
  /\ (validate nationality value = None <-> forallb is_js_space value = false).
Proof.
  assert (H : truthy (VStr (trim value)) = true
              <-> forallb is_js_space value = false).
  { pose proof (trim_nil_iff value) as Ht. cbn [truthy].
    destruct (trim value) as [|c t]; destruct (forallb is_js_space value);
      split; intros; try reflexivity; try discriminate.
    - destruct Ht as [Ht _]. specialize (Ht eq_refl). discriminate.
    - destruct Ht as [_ Ht]. specialize (Ht eq_refl). discriminate. }
  unfold validate.
  destruct (truthy (VStr (trim value)));
    destruct (forallb is_js_space value);
    destruct H as [H1 H2]; repeat split; intros; try reflexivity;
    try discriminate; try (now apply H1); try (now apply H2);
    try (specialize (H2 eq_refl); discriminate).
Qed.

Section HandlerFacts.

Variable questions : list QuestionDefinition.

Lemma question_at_range (i : Z) :
  (0 <= i < Z.of_nat (List.length questions))%Z ->
  exists q, question_at questions i = Ok q
            /\ nth_error questions (Z.to_nat i) = Some q.
Proof.
  intros H. unfold question_at.
  destruct (i <? 0)%Z eqn:E; [apply Z.ltb_lt in E; lia|].
  destruct (nth_error questions (Z.to_nat i)) as [q|] eqn:Hq; [eauto|].
  apply nth_error_None in Hq. lia.
Qed.

Lemma first_invalid_place (a : Answers) (qs : list QuestionDefinition)
    (i j : nat) (q : QuestionDefinition) (err : jsstring) :
  first_invalid a qs i = Some (j, q, err) ->
  (i <= j < i + List.length qs)%nat
  /\ nth_error qs (j - i) = Some q
  /\ validate (key q) (a (key q)) = Some err
  /\ forall k q', (k < j - i)%nat -> nth_error qs k = Some q' ->
                  validate (key q') (a (key q')) = None.
Proof.
  revert i. induction qs as [|q0 qs IH]; intros i; cbn [first_invalid];
    [discriminate|].
  destruct (validate (key q0) (a (key q0))) as [e0|] eqn:E0.
  - intros [= <- <- <-]. rewrite Nat.sub_diag. cbn [List.length nth_error].
    repeat split; try lia; auto; intros k q' Hk; lia.
  - intros H. apply IH in H as (Hr & Hn & Hv & Hb).
    cbn [List.length]. repeat split; try lia; auto.
    + replace (j - i)%nat with (S (j - S i)) by lia. exact Hn.
    + intros k q' Hk Hq. destruct k as [|k]; cbn [nth_error] in Hq.
      * injection Hq as <-. exact E0.
      * apply (Hb k q'); [lia|exact Hq].
Qed.

Lemma first_invalid_none (a : Answers) (qs : list QuestionDefinition) (i : nat) :
  first_invalid a qs i = None
  <-> forallb (fun q => match validate (key q) (a (key q)) with
                        | None => true
                        | Some _ => false
                        end) qs = true.
Proof.
  revert i. induction qs as [|q qs IH]; intros i; cbn [first_invalid forallb];
    [tauto|].
  destruct (validate (key q) (a (key q))); cbn [andb]; [|apply IH].
  split; discriminate.
Qed.

(** X16. The step counter stays a place in the list of questions or the
    review step: from such a state [goNext] does not throw, and [goNext],
    [goBack] and [submitIntake] lead to such a state. *)
Theorem X16_step_stays_in_range (w : state) :
  in_range questions w ->
  (exists w', goNext questions w = Ok w' /\ in_range questions w')
  /\ in_range questions (goBack w)
  /\ in_range questions (fst (submitIntake questions w)).
Proof.
  unfold in_range. intros Hw. split; [|split].
  - unfold goNext.
    destruct (Z.of_nat (List.length questions) <=? currentStep w)%Z eqn:E.
    + eexists. split; [reflexivity|]. exact Hw.
    + apply Z.leb_gt in E.
      destruct (question_at_range (currentStep w)) as (q & Hq & _); [lia|].
      rewrite Hq. cbn [bind].
      destruct (validate (key q) (answers w (key q)));
        eexists; (split; [reflexivity|]); cbn [currentStep setCurrentStep
          setWizardError]; lia.
  - cbn [goBack currentStep setCurrentStep setWizardError]. lia.
  - unfold submitIntake.
    cbn [answers setWizardFinalJson setWizardError].
    destruct (first_invalid (answers w) questions 0) as [[[i q] err]|] eqn:E.
    + apply first_invalid_place in E as (Hr & _).
      cbn [fst currentStep setCurrentStep setWizardError]. lia.
    + exact Hw.
Qed.

(** X17. On a question, [goNext] moves to the next step exactly when the
    answer to that question is accepted; when it is rejected the step
    stays and the error is the message of the validation. On the review
    step it only clears the error. *)
Theorem X17_goNext_needs_a_valid_answer (w : state) (q : QuestionDefinition) :
  (0 <= currentStep w)%Z ->
  nth_error questions (Z.to_nat (currentStep w)) = Some q ->
  goNext questions w
  = Ok (match validate (key q) (answers w (key q)) with
        | None => mkState (currentStep w + 1) (answers w) None
                    (wizardLoading w) (wizardFinalJson w)
        | Some err => mkState (currentStep w) (answers w) (Some err)
                        (wizardLoading w) (wizardFinalJson w)
        end).
Proof.
  intros H0 Hq.
  assert (Hlt : (Z.to_nat (currentStep w) < List.length questions)%nat)
    by (apply nth_error_Some; congruence).
  unfold goNext, question_at.
  destruct (Z.of_nat (List.length questions) <=? currentStep w)%Z eqn:E;
    [apply Z.leb_le in E; lia|].
  destruct (currentStep w <? 0)%Z eqn:E0; [apply Z.ltb_lt in E0; lia|].
  rewrite Hq. cbn [bind].
  destruct (validate (key q) (answers w (key q))); [reflexivity|].
  unfold setCurrentStep, setWizardError.
  cbn [currentStep answers wizardError wizardLoading wizardFinalJson].
  rewrite Z.min_l by lia. reflexivity.
Qed.

(** X18. [submitIntake] sends its request exactly when every answer is
    accepted. Otherwise nothing is sent, the step becomes the place of the
    first question whose answer is rejected, every answer before it being
    accepted, and the error is the title of that question with the message
    of the validation. *)
Theorem X18_submit_needs_every_answer_valid (w : state) :
  match snd (submitIntake questions w) with
  | Some message =>
      message = submit_message questions (answers w)
      /\ (forall q, In q questions -> validate (key q) (answers w (key q)) = None)
      /\ wizardLoading (fst (submitIntake questions w)) = true
  | None =>
      exists i q err,
        nth_error questions i = Some q
        /\ validate (key q) (answers w (key q)) = Some err
        /\ (forall k q', (k < i)%nat -> nth_error questions k = Some q' ->
                         validate (key q') (answers w (key q')) = None)
        /\ currentStep (fst (submitIntake questions w)) = Z.of_nat i
        /\ wizardError (fst (submitIntake questions w))
           = Some (title q ++ lit ": " ++ err)
  end.
Proof.
  unfold submitIntake. cbn [answers setWizardFinalJson setWizardError].
  destruct (first_invalid (answers w) questions 0) as [[[i q] err]|] eqn:E;
    cbn [snd fst].
  - apply first_invalid_place in E as (Hr & Hn & Hv & Hb).
    rewrite Nat.sub_0_r in *. exists i, q, err. repeat split; auto.
  - apply first_invalid_none in E. rewrite forallb_forall in E.
    repeat split. intros q Hq. specialize (E q Hq).
    now destruct (validate (key q) (answers w (key q))).
Qed.

End HandlerFacts.

End WizardFacts.

(** * The request of the client on the server *)

Lemma hex_val_digit (n : N) : n < 16 -> JSON.hex_val (JSON.hex_digit n) = Some n.
Proof.
  intros H. unfold JSON.hex_digit, JSON.hex_val.
  destruct (n <? 10) eqn:E.
  - apply N.ltb_lt in E.
    replace ((48 <=? 48 + n) && (48 + n <=? 57)) with true
      by (symmetry; apply andb_true_iff; split; apply N.leb_le; lia).
    f_equal. lia.
  - apply N.ltb_ge in E.
    replace ((48 <=? 87 + n) && (87 + n <=? 57)) with false
      by (symmetry; apply andb_false_iff; right; apply N.leb_gt; lia).
    replace ((97 <=? 87 + n) && (87 + n <=? 102)) with true
      by (symmetry; apply andb_true_iff; split; apply N.leb_le; lia).
    f_equal. lia.
Qed.

Lemma hex4_escape (c : N) :
  c < 65536 ->
  JSON.hex4 (JSON.hex_digit (c / 4096)) (JSON.hex_digit ((c / 256) mod 16))
    (JSON.hex_digit ((c / 16) mod 16)) (JSON.hex_digit (c mod 16)) = Some c.
Proof.
  intros H. unfold JSON.hex4.
  rewrite !hex_val_digit.
  - f_equal. zify. Z.to_euclidean_division_equations. lia.
  - apply N.mod_lt. lia.
  - apply N.mod_lt. lia.
  - apply N.mod_lt. lia.
  - zify. Z.to_euclidean_division_equations. lia.
Qed.

Lemma parse_chars_plain (c : N) (tail : jsstring) :
  (c =? 34) = false -> (c =? 92) = false -> (c <? 32) = false ->
  JSON.parse_chars (c :: tail) = JSON.cons_fst c (JSON.parse_chars tail).
Proof. intros H1 H2 H3. cbn [JSON.parse_chars]. now rewrite H1, H2, H3. Qed.

Lemma parse_chars_unicode (c : N) (tail : jsstring) :
  c < 65536 ->
  JSON.parse_chars (JSON.unicode_escape c ++ tail)
  = JSON.cons_fst c (JSON.parse_chars tail).
Proof.
  intros H. unfold JSON.unicode_escape.
  change (lit "\u") with [92; 117]. cbn [app JSON.parse_chars].
  change (92 =? 34) with false. change (92 =? 92) with true.
  change (117 =? 117) with true. cbv iota.
  now rewrite hex4_escape.
Qed.

Lemma surrogate_plain (c : N) :
  JSON.is_high_surrogate c || JSON.is_low_surrogate c = true ->
  (c =? 34) = false /\ (c =? 92) = false /\ (c <? 32) = false /\ c < 65536.
Proof.
  unfold JSON.is_high_surrogate, JSON.is_low_surrogate. intros H.
  assert (55296 <= c <= 57343).
  { apply orb_true_iff in H as [H|H]; apply andb_true_iff in H as [H1 H2];
      apply N.leb_le in H1, H2; lia. }
  repeat split; try apply N.eqb_neq; try apply N.ltb_ge; lia.
Qed.

Lemma parse_quote_chars (s rest : jsstring) (paired : bool) :
  JSON.parse_chars (JSON.quote_chars paired s ++ 34 :: rest) = Some (s, rest).
Proof.
  revert paired. induction s as [|c s IH]; intros paired; [reflexivity|].
  assert (Hesc : forall e u, JSON.escape_char e = Some u -> (e =? 117) = false ->
            JSON.parse_chars ([92; e] ++ JSON.quote_chars false s ++ 34 :: rest)
            = Some (u :: s, rest)).
  { intros e u He Hu. cbn [app JSON.parse_chars].
    change (92 =? 34) with false. change (92 =? 92) with true. cbv iota.
    now rewrite Hu, He, IH. }
  cbn [JSON.quote_chars].
  destruct (c =? 8) eqn:E8;
    [apply N.eqb_eq in E8; subst c; rewrite <- app_assoc; now apply Hesc|].
  destruct (c =? 9) eqn:E9;
    [apply N.eqb_eq in E9; subst c; rewrite <- app_assoc; now apply Hesc|].
  destruct (c =? 10) eqn:E10;
    [apply N.eqb_eq in E10; subst c; rewrite <- app_assoc; now apply Hesc|].
  destruct (c =? 12) eqn:E12;
    [apply N.eqb_eq in E12; subst c; rewrite <- app_assoc; now apply Hesc|].
  destruct (c =? 13) eqn:E13;
    [apply N.eqb_eq in E13; subst c; rewrite <- app_assoc; now apply Hesc|].
  destruct (c =? 34) eqn:E34;
    [apply N.eqb_eq in E34; subst c; rewrite <- app_assoc; now apply Hesc|].
  destruct (c =? 92) eqn:E92;
    [apply N.eqb_eq in E92; subst c; rewrite <- app_assoc; now apply Hesc|].
  destruct (c <? 32) eqn:E32.
  { rewrite <- app_assoc, parse_chars_unicode, IH; [reflexivity|].
    apply N.ltb_lt in E32. lia. }
  destruct (JSON.is_high_surrogate c) eqn:Eh.
  { destruct (surrogate_plain c) as (_ & _ & _ & Hc); [now rewrite Eh|].
    destruct s as [|d s'].
    - rewrite parse_chars_unicode by exact Hc. reflexivity.
    - destruct (JSON.is_low_surrogate d).
      + cbn [app]. rewrite parse_chars_plain, IH; auto.
      + rewrite <- app_assoc, parse_chars_unicode, IH; auto. }
  destruct (JSON.is_low_surrogate c) eqn:El.
  { destruct (surrogate_plain c) as (_ & _ & _ & Hc);
      [rewrite El; apply orb_true_r|].
    rewrite <- app_assoc. destruct paired.
    - cbn [app]. rewrite parse_chars_plain, IH; auto.
    - rewrite parse_chars_unicode, IH; auto. }
  cbn [app]. rewrite parse_chars_plain, IH; auto.
Qed.

Lemma parse_value_string (f : nat) (s rest : jsstring) :
  JSON.parse_value (S f) (34 :: JSON.quote_chars false s ++ 34 :: rest)
  = Some (VStr s, rest).
Proof.
  cbn [JSON.parse_value JSON.skip_ws].
  change (JSON.is_ws 34) with false. cbv iota.
  change (34 =? 123) with false. change (34 =? 91) with false.
  change (34 =? 34) with true. cbv iota.
  now rewrite parse_quote_chars.
Qed.

Lemma parse_value_member (f : nat) (k s rest : jsstring) :
  JSON.parse_value (S (S (S f)))
    (123 :: 34 :: JSON.quote_chars false k
       ++ 34 :: 58 :: 34 :: JSON.quote_chars false s ++ 34 :: 125 :: rest)
  = Some (VObj (JSON.obj_set [] k (VStr s)), rest).
Proof.
  cbn [JSON.parse_value JSON.skip_ws].
  change (JSON.is_ws 123) with false. cbv iota.
  change (123 =? 123) with true. cbv iota.
  change (JSON.is_ws 34) with false. cbv iota.
  change (34 =? 125) with false. cbv iota.
  cbn [JSON.parse_members JSON.skip_ws].
  change (JSON.is_ws 34) with false. cbv iota.
  change (negb (34 =? 34)) with false. cbv iota.
  rewrite parse_quote_chars.
  cbn [JSON.skip_ws]. change (JSON.is_ws 58) with false. cbv iota.
  change (negb (58 =? 58)) with false. cbv iota.
  rewrite parse_value_string.
  cbn [JSON.skip_ws]. change (JSON.is_ws 125) with false. cbv iota.
  change (125 =? 44) with false. change (125 =? 125) with true. cbv iota.
  reflexivity.
Qed.

Lemma request_body_parses (msg : jsstring) :
  JSON.parse (interpolate (JSON.serialize (request_body msg)))
  = Ok (request_body msg).
Proof.
  unfold request_body. cbn [JSON.serialize interpolate JSON.join_comma].
  unfold JSON.parse.
  set (text := [123] ++ (JSON.quote (lit "userMessage") ++ [58]
                          ++ JSON.quote msg) ++ [125]).
  assert (Hfuel : exists f, (2 * List.length text + 2)%nat = S (S (S f))).
  { subst text. cbn [app List.length]. eexists. rewrite Nat.mul_succ_r.
    rewrite Nat.add_comm. cbn. reflexivity. }
  destruct Hfuel as [f ->].
  assert (Htext : text = 123 :: 34 :: JSON.quote_chars false (lit "userMessage")
                          ++ 34 :: 58 :: 34 :: JSON.quote_chars false msg
                          ++ 34 :: 125 :: []).
  { subst text. unfold JSON.quote. cbn. rewrite <- !app_assoc. reflexivity. }
  rewrite Htext, parse_value_member. reflexivity.
Qed.

Lemma utf8_length_bound (n : nat) (s : jsstring) :
  (List.length s <= n)%nat -> N.of_nat (List.length s) <= utf8_length s.
Proof.
  revert s. induction n as [|n IH]; intros [|c s] Hn; cbn [List.length] in *;
    try (cbn; lia).
  assert (Hs : N.of_nat (List.length s) <= utf8_length s) by (apply IH; lia).
  cbn [utf8_length]. rewrite Nat2N.inj_succ.
  destruct (c <? 128); [lia|]. destruct (c <? 2048); [lia|].
  destruct (JSON.is_high_surrogate c); [|lia].
  destruct s as [|d s]; [cbn; lia|].
  destruct (JSON.is_low_surrogate d); [|lia].
  assert (Hs' : N.of_nat (List.length s) <= utf8_length s)
    by (apply IH; cbn [List.length] in Hn; lia).
  cbn [List.length]. rewrite Nat2N.inj_succ. lia.
Qed.

Lemma quote_chars_length (paired : bool) (s : jsstring) :
  (List.length s <= List.length (JSON.quote_chars paired s))%nat.
Proof.
  revert paired. induction s as [|c s IH]; intros paired; [apply Nat.le_refl|].
  pose proof (IH false) as IHf. pose proof (IH true) as IHt.
  assert (Hu : forall t, List.length (JSON.unicode_escape c ++ t)
                         = (6 + List.length t)%nat)
    by (intros t; reflexivity).
  cbn [JSON.quote_chars].
  repeat match goal with
         | |- context [if ?b then _ else _] => destruct b
         end;
    try (rewrite ?Hu; rewrite ?length_app; cbn [List.length];
         change (List.length (lit _)) with 2%nat; lia).
  all: destruct s as [|d s']; [cbn; lia|].
  all: destruct (JSON.is_low_surrogate d); rewrite ?Hu;
    cbn [List.length] in *; lia.
Qed.

Lemma request_text_length (msg : jsstring) :
  (List.length msg
   <= List.length (interpolate (JSON.serialize (request_body msg))))%nat.
Proof.
  unfold request_body. cbn [JSON.serialize interpolate JSON.join_comma].
  unfold JSON.quote. rewrite !length_app.
  pose proof (quote_chars_length false msg). lia.
Qed.

(** X19. The body that the client serializes for its request comes out of
    the body parser of the server as the same object, whatever characters
    the message holds, exactly when its text is within the limit of the
    parser; over the limit the parser refuses it, as it does every message
    of more characters than the limit has bytes. The handlers find the
    message in the body unless it is empty. *)
Theorem X19_request_body_round_trip (msg : jsstring) :
  let text := interpolate (JSON.serialize (request_body msg)) in
  express_json text
  = (if body_limit <? utf8_length text then Throw PayloadTooLargeError
     else Ok (request_body msg))
  /\ (body_limit < N.of_nat (List.length msg) ->
      express_json text = Throw PayloadTooLargeError)
  /\ user_message (request_body msg)
     = match msg with [] => None | _ => Some msg end.
Proof.
  cbv zeta.
  assert (Hlimit : forall b : bool,
            (if b then Throw PayloadTooLargeError
             else match interpolate (JSON.serialize (request_body msg)) with
                  | [] => Ok (VObj [])
                  | _ :: _ =>
                      match first_char
                              (interpolate (JSON.serialize (request_body msg)))
                      with
                      | Some c =>
                          if (c =? 123) || (c =? 91)
                          then JSON.parse
                                 (interpolate
                                    (JSON.serialize (request_body msg)))
                          else Throw (SyntaxError "Unexpected token in JSON")
                      | None => Throw (SyntaxError "Unexpected token in JSON")
                      end
                  end)
            = (if b then Throw PayloadTooLargeError
               else Ok (request_body msg))).
  { intros [|]; [reflexivity|]. rewrite request_body_parses. reflexivity. }
  split; [apply Hlimit|]. split; [|now destruct msg].
  intros Hlong. unfold express_json.
  assert (Hover : (body_limit
                   <? utf8_length
                        (interpolate (JSON.serialize (request_body msg))))
                  = true).
  { apply N.ltb_lt.
    pose proof (utf8_length_bound _ _ (Nat.le_refl
                  (List.length (interpolate
                                  (JSON.serialize (request_body msg)))))).
    pose proof (request_text_length msg). lia. }
  now rewrite Hover.
Qed.

Lemma join_nonempty (sep p : jsstring) (ps : list jsstring) :
  p <> [] -> Wizard.join sep (p :: ps) <> [].
Proof.
  intros Hp. cbn [Wizard.join]. destruct ps; [exact Hp|].
  intros H. apply app_eq_nil in H as [H _]. contradiction.
Qed.

Lemma submit_message_nonempty
    (questions : list Wizard.QuestionDefinition) (a : Wizard.Answers) :
  questions <> [] -> Wizard.submit_message questions a <> [].
Proof.
  destruct questions as [|q qs]; [contradiction|]. intros _.
  unfold Wizard.submit_message. cbn [map]. apply join_nonempty.
  intros H. apply app_eq_nil in H as [_ H]. discriminate.
Qed.

(** X20. When there is at least one question, the request that
    [submitIntake] sends is never answered with 400: its body carries a
    message that is not empty. *)
Theorem X20_form_request_is_never_a_bad_request
    (parse : jsstring -> result value)
    (stringify : value -> result (option jsstring))
    (create : jsstring -> result value)
    (questions : list Wizard.QuestionDefinition) (w : Wizard.state)
    (message : jsstring) :
  questions <> [] ->
  snd (Wizard.submitIntake questions w) = Some message ->
  user_message (request_body message) = Some message
  /\ status_code (post_api_chat parse stringify create (request_body message))
     <> 400.
Proof.
  intros Hq Hs.
  assert (Hm : message <> []).
  { unfold Wizard.submitIntake in Hs.
    destruct (Wizard.first_invalid _ questions 0) as [[[i q] err]|];
      [discriminate|].
    injection Hs as <-. now apply submit_message_nonempty. }
  assert (Hu : user_message (request_body message) = Some message)
    by (destruct message; [contradiction|reflexivity]).
  split; [exact Hu|].
  unfold post_api_chat, chat_try. rewrite get_userMessage.
  unfold user_message in Hu. cbn [bind].
  destruct (own_prop _ (lit "userMessage")) as [| |b|x|[|c s]|items|fs];
    try discriminate.
  destruct (create (c :: s)) as [r|e]; cbn [bind].
  - rewrite extractJsonFromResponse_refines. cbn. discriminate.
  - cbn. discriminate.
Qed.

(** * The decoder on ASCII *)



(** * The further theorems at concrete inputs *)

Lemma X6_witness :
  startsWith (trim ([32; 9] ++ (lit "data:" ++ jtext "{'event':'final'}") ++ [13]))
    (lit "data:") = true
  /\ strip_data (trim ([32; 9] ++ (lit "data:" ++ jtext "{'event':'final'}") ++ [13]))
     = jtext "{'event':'final'}"
  /\ startsWith (trim ([32; 9] ++ (lit "data: " ++ jtext "{'event':'final'}") ++ [13]))
       (lit "data:") = true
  /\ strip_data (trim ([32; 9] ++ (lit "data: " ++ jtext "{'event':'final'}") ++ [13]))
     = jtext "{'event':'final'}".
Proof.
  apply (X6_payload_recovered [32; 9] [13] (jtext "{'event':'final'}"));
    reflexivity.
Defined.

Lemma X7_witness :
  error (ui (resume JSON.parse streaming_component 0%nat (Rejected network_error)))
    = Some (lit "Failed to fetch")
  /\ (transcript (ui (resume JSON.parse streaming_component 0%nat
                        (Rejected network_error))),
      events (ui (resume JSON.parse streaming_component 0%nat
                    (Rejected network_error))),
      finalJson (ui (resume JSON.parse streaming_component 0%nat
                       (Rejected network_error))))
     = (transcript (ui streaming_component), events (ui streaming_component),
        finalJson (ui streaming_component))
  /\ is_active 0 (resume JSON.parse streaming_component 0%nat
                    (Rejected network_error)) = false
  /\ controllerRef (resume JSON.parse streaming_component 0%nat
                      (Rejected network_error)) = None
  /\ isStreaming (ui (resume JSON.parse streaming_component 0%nat
                        (Rejected network_error))) = false.
Proof.
  apply (X7_failed_read_sets_error JSON.parse streaming_component 0%nat
           network_error); vm_compute; reflexivity.
Defined.

Lemma X8_witness :
  error (ui (resume JSON.parse (startStream initial_component) 0%nat
               (Response false true 400)))
    = Some (lit "Stream failed with status " ++ N_digits 400)
  /\ (transcript (ui (resume JSON.parse (startStream initial_component) 0%nat
                        (Response false true 400))),
      events (ui (resume JSON.parse (startStream initial_component) 0%nat
                    (Response false true 400))),
      finalJson (ui (resume JSON.parse (startStream initial_component) 0%nat
                       (Response false true 400))))
     = (transcript (ui (startStream initial_component)),
        events (ui (startStream initial_component)),
        finalJson (ui (startStream initial_component)))
  /\ is_active 0 (resume JSON.parse (startStream initial_component) 0%nat
                    (Response false true 400)) = false
  /\ isStreaming (ui (resume JSON.parse (startStream initial_component) 0%nat
                        (Response false true 400))) = false.
Proof.
  apply (X8_failed_response_sets_error JSON.parse
           (startStream initial_component) 0%nat false true 400);
    reflexivity.
Defined.

Lemma X12_witness :
  events (fst (read_loop JSON.parse initial_ui
                 [ascii_bytes (wire_text sample_run)]))
    = events initial_ui ++ parsed_events JSON.parse (sent_json sample_run)
  /\ transcript (fst (read_loop JSON.parse initial_ui
                        [ascii_bytes (wire_text sample_run)]))
    = transcript initial_ui
      ++ List.concat (map event_text
                        (parsed_events JSON.parse (sent_json sample_run)))
  /\ buffer (snd (read_loop JSON.parse initial_ui
                    [ascii_bytes (wire_text sample_run)]))
     = closing_line sample_run.
Proof.
  apply (X12_consumer_receives_what_the_relay_wrote JSON.parse initial_ui
           [ascii_bytes (wire_text sample_run)] sample_run).
  vm_compute. reflexivity.
Defined.

Lemma X10_witness :
  let res :=
    fst (post_api_chat_stream (fun _ => Ok tt)
           (request_body (lit "I am Jane Doe"))) in
  (exists res',
     relay JSON.parse JSON.stringify res (sample_run ++ [OnMessage VNull])
     = Ok res'
     /\ List.concat (sse_written res')
        = List.concat (sse_written res)
          ++ wire_text (sample_run ++ [OnMessage VNull])
     /\ sse_ended res' = existsb is_closing (sample_run ++ [OnMessage VNull]))
  /\ to_string_throws unprintable_payload = true
  /\ relay JSON.parse JSON.stringify res
       (OnMessage unprintable_payload :: sample_run)
     = Throw (TypeError "Cannot convert object to primitive value")
  /\ relay JSON.parse JSON.stringify res
       (OnFinalMessage unprintable_payload :: sample_run)
     = relay JSON.parse JSON.stringify res sample_run.
Proof.
  cbv zeta.
  destruct (X10_relay_writes_frames_in_order
              (fst (post_api_chat_stream (fun _ => Ok tt)
                      (request_body (lit "I am Jane Doe"))))
              (sample_run ++ [OnMessage VNull]))
    as [Hrun Hbad]; [reflexivity|vm_compute; reflexivity|].
  split; [exact Hrun|]. split; [vm_compute; reflexivity|].
  destruct (Hbad unprintable_payload sample_run) as (_ & Hm & _ & Hf);
    [vm_compute; reflexivity|].
  split; [exact Hm|exact Hf].
Defined.

Lemma X19_witness :
  let text := interpolate (JSON.serialize (request_body (lit "I am Jane Doe"))) in
  text = jtext "{'userMessage':'I am Jane Doe'}"
  /\ utf8_length text = 31
  /\ express_json text = Ok (request_body (lit "I am Jane Doe")).
Proof.
  cbv zeta. split; [vm_compute; reflexivity|]. split; [vm_compute; reflexivity|].
  destruct (X19_request_body_round_trip (lit "I am Jane Doe")) as (H & _ & _).
  rewrite H. vm_compute. reflexivity.
Defined.



Lemma X16_witness :
  (exists w', Wizard.goNext sample_questions (form_on_date sample_answers) = Ok w'
              /\ Wizard.in_range sample_questions w')
  /\ Wizard.in_range sample_questions (Wizard.goBack (form_on_date sample_answers))
  /\ Wizard.in_range sample_questions
       (fst (Wizard.submitIntake sample_questions (form_on_date sample_answers))).
Proof.
  apply (WizardFacts.X16_step_stays_in_range sample_questions
           (form_on_date sample_answers)).
  unfold Wizard.in_range. cbn. lia.
Defined.

Lemma X17_witness :
  Wizard.goNext sample_questions (form_on_date answers_with_bad_date)
  = Ok (match Wizard.validate Wizard.dob (lit "12/04/1991") with
        | None => Wizard.mkState (1 + 1) answers_with_bad_date None false VNull
        | Some err =>
            Wizard.mkState 1 answers_with_bad_date (Some err) false VNull
        end).
Proof.
  apply (WizardFacts.X17_goNext_needs_a_valid_answer sample_questions
           (form_on_date answers_with_bad_date)
           (Wizard.mkQuestion Wizard.dob (lit "What is your date of birth?")));
    [cbn; lia|reflexivity].
Defined.

Lemma X20_witness :
  user_message
    (request_body (Wizard.submit_message sample_questions sample_answers))
  = Some (Wizard.submit_message sample_questions sample_answers)
  /\ status_code
       (post_api_chat JSON.parse JSON.stringify (fun _ => Ok complete_response)
          (request_body (Wizard.submit_message sample_questions sample_answers)))
     <> 400.
Proof.
  apply (X20_form_request_is_never_a_bad_request JSON.parse JSON.stringify
           (fun _ => Ok complete_response) sample_questions
           (form_on_date sample_answers)).
  - discriminate.
  - vm_compute. reflexivity.
Defined.

(** The runs of the samples. *)
Example relay_to_consumer_run :
  let st := fst (read_loop JSON.parse initial_ui
                   [ascii_bytes (wire_text sample_run)]) in
  transcript st = lit "Jane Doe"
  /\ finalJson st = from_json complete_intake
  /\ List.length (events st) = 3%nat.
Proof. repeat split; vm_compute; reflexivity. Qed.

Example form_runs :
  snd (Wizard.submitIntake sample_questions (form_on_date answers_with_bad_date))
    = None
  /\ Wizard.currentStep
       (fst (Wizard.submitIntake sample_questions
               (form_on_date answers_with_bad_date))) = 1%Z
  /\ Wizard.wizardError
       (fst (Wizard.submitIntake sample_questions
               (form_on_date answers_with_bad_date)))
     = Some (lit "What is your date of birth?: Use format YYYY-MM-DD.")
  /\ Wizard.wizardFinalJson
       (Wizard.on_reply (form_on_date sample_answers)
          (Wizard.Replied true 200
             (Ok (json_body
                    (post_api_chat JSON.parse JSON.stringify
                       (fun _ => Ok complete_response)
                       (request_body
                          (Wizard.submit_message sample_questions
                             sample_answers)))))))
     = from_json "{'full_name':'Jane Doe'}".
Proof. repeat split; vm_compute; reflexivity. Qed.
